(** * ChaPT frontend: the gallery carousel and the FAQ accordion

    A shallow embedding of the two stateful controllers of the site's
    behaviour layer:

    - [Carousel]: [src/scripts/gallery.js], the closure variables
      [currentIndex], [touchStartX], [touchEndX] and the functions
      [goToSlide], [nextSlide], [prevSlide], [handleSwipe], [createDots],
      [updateDots], together with the start-up code that looks the markup
      up and attaches the listeners;
    - [Accordion]: section 5 of the main script, the per-item start-up code
      and the click handler of the summary with its two [transitionend]
      callbacks;
    - [Throttle], [Header], [MobileMenu], [Dropdown]: sections 1, 2 and 2b
      of the main script;
    - [Text], [Regex], [Forms]: section 6 of the main script, [isValidEmail],
      [showError], [clearError] and the submit handler of the insurance form
      up to its request;
    - [FaqButton]: the click handler of the treatment pages.

    JavaScript numbers that hold indices and pixel coordinates are modelled
    as [Z]; a value that may be [null] is an [option]; a property access on
    [null] raises [TypeError] in the [result] monad below. *)

From Stdlib Require Import ZArith List Bool String Lia.
Import ListNotations.
Open Scope Z_scope.

(** ** Nullable values and exceptions *)

Module Dom.

(** An element of the page, known by the order in which the query met it. *)
Inductive node : Type := Node (id : nat).

Inductive exn : Type := TypeError.

Inductive result (A : Type) : Type :=
| Ok (a : A)
| Throw (e : exn).
Arguments Ok {A} a.
Arguments Throw {A} e.

Definition bind {A B : Type} (m : result A) (k : A -> result B) : result B :=
  match m with
  | Ok a => k a
  | Throw e => Throw e
  end.

(** [!x] of JavaScript on a value that is an element or [null]. *)
Definition is_null {A : Type} (o : option A) : bool :=
  match o with
  | Some _ => false
  | None => true
  end.

(** Reading a property or calling a method of [o]: a [TypeError] on [null]. *)
Definition deref {A : Type} (o : option A) : result A :=
  match o with
  | Some a => Ok a
  | None => Throw TypeError
  end.

End Dom.

Import Dom.

Declare Scope js_scope.
Delimit Scope js_scope with js.
Notation "x <- m ;; k" := (bind m (fun x => k))
  (at level 61, m at next level, right associativity) : js_scope.
Notation "m ;;; k" := (bind m (fun _ => k))
  (at level 61, right associativity) : js_scope.
Open Scope js_scope.

(** ** The gallery carousel *)

Module Carousel.

(** The mutable variables of the closure and the two pieces of the page
    that [goToSlide] writes: the track's [translateX] offset in percent
    ([None] until the first write) and the [active] class of each dot
    ([None] when the markup has no dot host). *)
Record state : Type := mkState {
  currentIndex : Z;
  transform : option Z;
  dots : option (list bool);
  touchStartX : Z;
  touchEndX : Z
}.

Definition swipeThreshold : Z := 50.

(** [dots.forEach((dot, index) => dot.classList.toggle("active",
    index === currentIndex))], from position [index] on. *)
Fixpoint toggleActive (cur index : Z) (ds : list bool) : list bool :=
  match ds with
  | [] => []
  | _ :: rest => (index =? cur) :: toggleActive cur (index + 1) rest
  end.

Definition updateDots (s : state) : state :=
  match dots s with
  | None => s
  | Some ds =>
      mkState (currentIndex s) (transform s)
              (Some (toggleActive (currentIndex s) 0 ds))
              (touchStartX s) (touchEndX s)
  end.

(** The loop of [createDots]: one button per slide, the first one active. *)
Fixpoint createDotsFrom (i : Z) (n : nat) : list bool :=
  match n with
  | O => []
  | S n' => (i =? 0) :: createDotsFrom (i + 1) n'
  end.

Section Controller.

(** [const totalSlides = slides.length]. *)
Variable totalSlides : Z.

Definition goToSlide (index : Z) (s : state) : state :=
  let cur :=
    if index <? 0 then totalSlides - 1
    else if index >=? totalSlides then 0
    else index in
  updateDots
    (mkState cur (Some (- (cur * 100))) (dots s)
             (touchStartX s) (touchEndX s)).

Definition nextSlide (s : state) : state :=
  goToSlide (currentIndex s + 1) s.

Definition prevSlide (s : state) : state :=
  goToSlide (currentIndex s - 1) s.

Definition handleSwipe (s : state) : state :=
  let diff := touchStartX s - touchEndX s in
  if Z.abs diff >? swipeThreshold then
    if diff >? 0 then nextSlide s else prevSlide s
  else s.

(** What the page can deliver to the listeners the controller attached. *)
Inductive event : Type :=
| ClickPrev
| ClickNext
| ClickDot (i : nat)
| KeyDown (key : string)
| TouchStart (screenX : Z)
| TouchEnd (screenX : Z).

Definition step (e : event) (s : state) : state :=
  match e with
  | ClickPrev => prevSlide s
  | ClickNext => nextSlide s
  | ClickDot i => goToSlide (Z.of_nat i) s
  | KeyDown key =>
      if String.eqb key "ArrowLeft" then prevSlide s
      else if String.eqb key "ArrowRight" then nextSlide s
      else s
  | TouchStart x =>
      mkState (currentIndex s) (transform s) (dots s) x (touchEndX s)
  | TouchEnd x =>
      handleSwipe
        (mkState (currentIndex s) (transform s) (dots s) (touchStartX s) x)
  end.

Definition run (es : list event) (s : state) : state :=
  fold_left (fun acc e => step e acc) es s.

(** A finger put down at [x0] and lifted at [x1]. *)
Definition swipe (x0 x1 : Z) (s : state) : state :=
  step (TouchEnd x1) (step (TouchStart x0) s).

Definition in_range (s : state) : Prop :=
  0 <= currentIndex s <= totalSlides - 1.

End Controller.

(** *** Start-up *)

(** The markup under [.gallery-carousel], as the five queries see it. *)
Record carouselEl : Type := mkCarouselEl {
  gallery_track : option node;
  gallery_slides : list node;
  gallery_prev : option node;
  gallery_next : option node;
  gallery_dots : option node
}.

Inductive target : Type :=
| OnDot (i : nat)
| OnPrev
| OnNext
| OnCarousel
| OnTrack.

Definition listener : Type := (target * string)%type.

Record controller : Type := mkController {
  total : Z;
  st : state;
  attached : list listener
}.

(** [el.addEventListener(type, ...)] on a value that may be [null]. *)
Definition addEventListener {A : Type} (el : option A) (t : target)
    (type : string) (ls : list listener) : result (list listener) :=
  _ <- deref el ;; Ok (ls ++ [(t, type)]).

Fixpoint dotListeners (i : nat) (n : nat) : list listener :=
  match n with
  | O => []
  | S n' => (OnDot i, "click"%string) :: dotListeners (S i) n'
  end.

(** [createDots()]: nothing without a dot host. *)
Definition createDots (dotsContainer : option node) (n : nat)
    : option (list bool) * list listener :=
  if is_null dotsContainer then (None, [])
  else (Some (createDotsFrom 0 n), dotListeners 0 n).

(** The body of the script: [Ok None] is an early [return]. *)
Definition init (document : option carouselEl) : result (option controller) :=
  let carousel := document in
  if is_null carousel then Ok None else
  c <- deref carousel ;;
  let track := gallery_track c in
  let slides := gallery_slides c in
  let prevBtn := gallery_prev c in
  let nextBtn := gallery_next c in
  let dotsContainer := gallery_dots c in
  if is_null track || (List.length slides =? 0)%nat then Ok None else
  let totalSlides := Z.of_nat (List.length slides) in
  let '(ds, ls0) := createDots dotsContainer (List.length slides) in
  ls1 <- (if is_null prevBtn then Ok ls0
          else addEventListener prevBtn OnPrev "click" ls0) ;;
  ls2 <- (if is_null nextBtn then Ok ls1
          else addEventListener nextBtn OnNext "click" ls1) ;;
  ls3 <- addEventListener carousel OnCarousel "keydown" ls2 ;;
  ls4 <- addEventListener track OnTrack "touchstart" ls3 ;;
  ls5 <- addEventListener track OnTrack "touchend" ls4 ;;
  Ok (Some (mkController totalSlides (mkState 0 None ds 0 0) ls5)).

(** The state [init] starts from on a page with [n] slides. *)
Definition initial (hasDots : bool) (n : nat) : state :=
  mkState 0 None (if hasDots then Some (createDotsFrom 0 n) else None) 0 0.

End Carousel.

(** ** The FAQ accordion *)

Module Accordion.

(** [content.style.height]: the empty inline style, ["<n>px"] (["0"] is
    [Px 0]) or ["auto"]. *)
Inductive css_height : Type :=
| Unset
| Px (n : Z)
| Auto.

(** The two functions the click handler registers for [transitionend];
    the source calls both [handler]. *)
Inductive callback : Type :=
| closingHandler
| openingHandler.

(** One [addEventListener] call: each call makes a new function object,
    told apart by [lid]. Every registration of the source asks for
    [once: true]. *)
Record registration : Type := mkRegistration {
  lid : nat;
  fn : callback;
  once : bool
}.

(** One [<details class="accordion-item">]: its [open] attribute, the
    inline height of its content, the [transitionend] listeners of the
    content in the order they were added, the next function identity, and
    how often the script forced a layout (by reading [scrollHeight] or
    [offsetHeight] of the content). *)
Record item : Type := mkItem {
  open : bool;
  height : css_height;
  listeners : list registration;
  fresh : nat;
  reflows : nat
}.

(** The statements the handlers are made of. *)
Inductive op : Type :=
| SetOpen (b : bool)
| SetHeight (h : css_height)
| ReadScrollHeight
| ForceReflow
| AddTransitionEnd (f : callback)
| RemoveTransitionEnd (id : nat).

Definition registered (id : nat) (ls : list registration) : bool :=
  existsb (fun r => Nat.eqb (lid r) id) ls.

Definition unregister (id : nat) (ls : list registration) : list registration :=
  filter (fun r => negb (Nat.eqb (lid r) id)) ls.

Definition exec (o : op) (s : item) : item :=
  match o with
  | SetOpen b => mkItem b (height s) (listeners s) (fresh s) (reflows s)
  | SetHeight h => mkItem (open s) h (listeners s) (fresh s) (reflows s)
  | ReadScrollHeight =>
      mkItem (open s) (height s) (listeners s) (fresh s) (S (reflows s))
  | ForceReflow => mkItem (open s) (height s) (listeners s) (fresh s) (S (reflows s))
  | AddTransitionEnd f =>
      mkItem (open s) (height s)
             (listeners s ++ [mkRegistration (fresh s) f true])
             (S (fresh s)) (reflows s)
  | RemoveTransitionEnd id =>
      mkItem (open s) (height s) (unregister id (listeners s))
             (fresh s) (reflows s)
  end.

Definition exec_all (os : list op) (s : item) : item :=
  fold_left (fun acc o => exec o acc) os s.

(** The states after each statement of [os], in order. *)
Fixpoint states_of (os : list op) (s : item) : list item :=
  match os with
  | [] => []
  | o :: rest => exec o s :: states_of rest (exec o s)
  end.

(** The heights a run of statements writes, in order. *)
Fixpoint height_writes (os : list op) : list css_height :=
  match os with
  | [] => []
  | SetHeight h :: rest => h :: height_writes rest
  | _ :: rest => height_writes rest
  end.

(** A layout that finds the height [now] where the layout before had
    [before] starts a transition when both are lengths and differ; the
    browser does not animate from or to ["auto"] or an unset height. *)
Definition starts_transition (before now : css_height) : nat :=
  match before, now with
  | Px a, Px b => if a =? b then O else 1%nat
  | _, _ => O
  end.

(** The height transitions a run of statements starts on a content that
    was last laid out with height [laid] and now has the inline height
    [cur]: the page is laid out at each read of [scrollHeight] or
    [offsetHeight], and once more by the browser when the statements are
    through. *)
Fixpoint transitions_started (laid cur : css_height) (os : list op) : nat :=
  match os with
  | [] => starts_transition laid cur
  | SetHeight h :: rest => transitions_started laid h rest
  | ReadScrollHeight :: rest =>
      (starts_transition laid cur + transitions_started cur cur rest)%nat
  | ForceReflow :: rest =>
      (starts_transition laid cur + transitions_started cur cur rest)%nat
  | _ :: rest => transitions_started laid cur rest
  end.

(** The click handler of the summary; [scrollHeight] is what
    [content.scrollHeight] measures when the handler reads it. The read
    comes before the write that uses it, and it lays the page out like the
    read of [offsetHeight] does. *)
Definition click_ops (s : item) (scrollHeight : Z) : list op :=
  if open s then
    [ ReadScrollHeight;
      SetHeight (Px scrollHeight);
      ForceReflow;
      SetHeight (Px 0);
      AddTransitionEnd closingHandler ]
  else
    [ SetOpen true;
      ReadScrollHeight;
      SetHeight (Px 0);
      ForceReflow;
      SetHeight (Px scrollHeight);
      AddTransitionEnd openingHandler ].

Definition click (scrollHeight : Z) (s : item) : item :=
  exec_all (click_ops s scrollHeight) s.

(** The body of the function registered as [id]. *)
Definition handler_ops (id : nat) (f : callback) : list op :=
  match f with
  | closingHandler => [ SetOpen false; RemoveTransitionEnd id ]
  | openingHandler => [ SetHeight Auto; RemoveTransitionEnd id ]
  end.

(** Delivery of one [transitionend] to the content: the listeners present
    when the event arrives are called in the order they were added; one
    removed in the meantime is passed over, and a [once] listener is
    removed just before its call. *)
Fixpoint dispatch (snapshot : list registration) (s : item) : item :=
  match snapshot with
  | [] => s
  | r :: rest =>
      if registered (lid r) (listeners s) then
        let s1 := if once r then exec (RemoveTransitionEnd (lid r)) s else s in
        dispatch rest (exec_all (handler_ops (lid r) (fn r)) s1)
      else dispatch rest s
  end.

Definition transitionEnd (s : item) : item :=
  dispatch (listeners s) s.

Inductive event : Type :=
| Click (scrollHeight : Z)
| TransitionEnd.

Definition step (e : event) (s : item) : item :=
  match e with
  | Click h => click h s
  | TransitionEnd => transitionEnd s
  end.

Definition run (es : list event) (s : item) : item :=
  fold_left (fun acc e => step e acc) es s.

(** *** Start-up *)

Record contentEl : Type := mkContentEl {
  scrollHeight : Z
}.

(** One element matched by [.accordion-item], as the two queries see it. *)
Record itemEl : Type := mkItemEl {
  el_summary : option node;
  el_content : option contentEl;
  el_open : bool
}.

(** The item as the markup gives it, before the script touched it. *)
Definition markup_item (it : itemEl) : item :=
  mkItem (el_open it) Unset [] 0 0.

(** [content.style.height = item.open ? content.scrollHeight + "px" : "0"]:
    [scrollHeight] is read, and the page laid out for it, only on the open
    branch. *)
Definition init_ops (it : itemEl) (content : contentEl) : list op :=
  if el_open it then [ ReadScrollHeight; SetHeight (Px (scrollHeight content)) ]
  else [ SetHeight (Px 0) ].

(** The callback of [accordionItems.forEach]: [Ok None] is the early
    [return]; the click listener goes on the summary. *)
Definition init_item (it : itemEl) : result (option item) :=
  let summary := el_summary it in
  let content := el_content it in
  if is_null summary || is_null content then Ok None else
  c <- deref content ;;
  let s := exec_all (init_ops it c) (markup_item it) in
  _ <- deref summary ;;
  Ok (Some s).

(** [forEach]: an exception of the callback ends the loop. *)
Fixpoint forEach {A B : Type} (f : A -> result B) (l : list A) : result (list B) :=
  match l with
  | [] => Ok []
  | a :: rest =>
      b <- f a ;;
      bs <- forEach f rest ;;
      Ok (b :: bs)
  end.

Definition init (accordionItems : list itemEl) : result (list (option item)) :=
  forEach init_item accordionItems.

Definition malformed (it : itemEl) : bool :=
  is_null (el_summary it) || is_null (el_content it).

(** The item once the start-up code has set its height. *)
Definition started (it : itemEl) (content : contentEl) : item :=
  exec_all (init_ops it content) (markup_item it).

(** What one pass of the callback leaves for [it], seen on its own. *)
Definition attach (it : itemEl) : option item :=
  match el_summary it, el_content it with
  | Some _, Some content => Some (started it content)
  | _, _ => None
  end.

(** Function identities are handed out in increasing order, so every
    listener still registered is older than the next one. *)
Definition well_formed (s : item) : Prop :=
  Forall (fun r => (lid r < fresh s)%nat) (listeners s).

End Accordion.

(** ** What the carousel shows *)

Module CarouselShows.

Import Carousel.

(** The dots show the index: there are [n] of them and dot [i] is active
    exactly when [i] is the current index. *)
Definition dots_show_index (n : nat) (s : state) : Prop :=
  exists ds,
    dots s = Some ds /\
    List.length ds = n /\
    ds = toggleActive (currentIndex s) 0 ds.

End CarouselShows.

(** ** Callbacks waiting for a transition *)

Module AccordionPending.

Import Accordion.

(** A registration that waits for the end of a collapse. *)
Definition closing (r : registration) : Prop := fn r = closingHandler.

End AccordionPending.

(** ** The main script: throttled header, menus *)

Module Throttle.

(** The closure [throttle(func, limit)] returns: its flag ([undefined] at
    first, which counts as [false]) and the number of [setTimeout]
    callbacks it has scheduled that did not run yet. *)
Record closure : Type := mkClosure {
  inThrottle : bool;
  timers : nat
}.

Definition created : closure := mkClosure false 0.

Section Throttled.

(** [func] acts on some part [W] of the page. *)
Variables (A W : Type) (func : A -> W -> W).

(** A call of the returned function. *)
Definition call (args : A) (cw : closure * W) : closure * W :=
  let (c, w) := cw in
  if inThrottle c then cw
  else (mkClosure true (S (timers c)), func args w).

(** One scheduled callback runs: [inThrottle = false]. Nothing happens
    when none is scheduled. *)
Definition timeout (cw : closure * W) : closure * W :=
  let (c, w) := cw in
  match timers c with
  | O => cw
  | S k => (mkClosure false k, w)
  end.

Inductive event : Type :=
| Call (args : A)
| Timeout.

Definition step (e : event) (cw : closure * W) : closure * W :=
  match e with
  | Call args => call args cw
  | Timeout => timeout cw
  end.

Definition run (es : list event) (cw : closure * W) : closure * W :=
  fold_left (fun acc e => step e acc) es cw.

End Throttled.

Arguments Call {A} args.
Arguments Timeout {A}.

(** How many timer callbacks [es] has. *)
Fixpoint timeouts {A : Type} (es : list (event A)) : nat :=
  match es with
  | [] => O
  | Call _ :: rest => timeouts rest
  | Timeout :: rest => S (timeouts rest)
  end.

(** A [func] that only records the arguments it was called with. *)
Definition record {A : Type} (args : A) (log : list A) : list A :=
  log ++ [args].

End Throttle.

Module Header.

Definition logoPathBrown : string := "/static/images/chaLogo/chaLogo_brown.png".
Definition logoPathWhite : string := "/static/images/chaLogo/chaLogo_white.png".
Definition scrollThreshold : Z := 150.

(** [.site-header], with or without a [.logo-image] inside. *)
Record headerEl : Type := mkHeaderEl {
  hasLogo : bool
}.

(** What the script looked up once: [header] (and through it [logoImage])
    and whether [body] has the class [no-hero]. *)
Record page : Type := mkPage {
  header : option headerEl;
  isNoHeroPage : bool
}.

(** The class [scrolled] of the header and the [src] of the logo. *)
Record view : Type := mkView {
  scrolled : bool;
  logoSrc : string
}.

(** The scroll offsets the window reports when the handler reads them:
    [window.scrollY] and [window.pageYOffset]. *)
Record offsets : Type := mkOffsets {
  scrollY : Z;
  pageYOffset : Z
}.

Definition setLogo (h : headerEl) (src : string) (v : view) : string :=
  if hasLogo h then src else logoSrc v.

Definition handleHeaderScroll (p : page) (o : offsets) (v : view) : view :=
  match header p with
  | None => v
  | Some h =>
      if isNoHeroPage p then mkView true (setLogo h logoPathBrown v)
      else
        let y := if scrollY o =? 0 then pageYOffset o else scrollY o in
        if y >? scrollThreshold then mkView true (setLogo h logoPathBrown v)
        else mkView false (setLogo h logoPathWhite v)
  end.

(** [window.addEventListener("scroll", throttle(handleHeaderScroll, 10));
    handleHeaderScroll();]: the state after the script ran on a page
    scrolled to [o]. *)
Definition load (p : page) (o : offsets) (v : view) : Throttle.closure * view :=
  (Throttle.created, handleHeaderScroll p o v).

(** Scroll events and timer callbacks after that. *)
Definition run (p : page) (es : list (Throttle.event offsets))
    (cv : Throttle.closure * view) : Throttle.closure * view :=
  Throttle.run offsets view (handleHeaderScroll p) es cv.

(** The logo is the brown one exactly on a [scrolled] header. *)
Definition logo_matches (v : view) : Prop :=
  logoSrc v = if scrolled v then logoPathBrown else logoPathWhite.

End Header.

Module MobileMenu.

(** Which of [.main-nav], [.mobile-menu-toggle] and [.nav-overlay] the
    page has. *)
Record elements : Type := mkElements {
  mainNav : bool;
  mobileMenuToggle : bool;
  navOverlay : bool
}.

(** The class [open] of the navigation, [aria-expanded] of the toggle,
    the class [active] and [aria-hidden] of the overlay, and
    [body.style.overflow]. *)
Record menu : Type := mkMenu {
  navOpen : bool;
  ariaExpanded : option string;
  overlayActive : bool;
  overlayAriaHidden : option string;
  bodyOverflow : string
}.

(** A boolean written into an attribute. *)
Definition to_string (b : bool) : string :=
  if b then "true"%string else "false"%string.

Section Page.

Variable els : elements.

Definition toggleMobileMenu (m : menu) : menu :=
  if negb (mainNav els) || negb (mobileMenuToggle els) then m else
  let isOpen := negb (navOpen m) in
  mkMenu isOpen
         (Some (to_string isOpen))
         (if navOverlay els then isOpen else overlayActive m)
         (if navOverlay els then Some (to_string (negb isOpen))
          else overlayAriaHidden m)
         (if isOpen then "hidden"%string else ""%string).

Definition closeMobileMenu (m : menu) : menu :=
  if negb (mainNav els) || negb (mobileMenuToggle els) then m else
  mkMenu false
         (Some "false"%string)
         (if navOverlay els then false else overlayActive m)
         (if navOverlay els then Some "true"%string else overlayAriaHidden m)
         ""%string.

(** The clicks and keys the script listens to. A nav link knows whether
    its parent has the class [has-dropdown]; [innerWidth] is the width of
    the window at the click. *)
Inductive event : Type :=
| ClickToggle
| ClickOverlay
| ClickNavLink (isDropdownToggle : bool) (innerWidth : Z)
| ClickCta
| KeyDown (key : string).

Definition step (e : event) (m : menu) : menu :=
  match e with
  | ClickToggle => if mobileMenuToggle els then toggleMobileMenu m else m
  | ClickOverlay => if navOverlay els then closeMobileMenu m else m
  | ClickNavLink isDropdownToggle innerWidth =>
      let isMobile := innerWidth <=? 900 in
      if negb isDropdownToggle || negb isMobile then closeMobileMenu m else m
  | ClickCta => closeMobileMenu m
  | KeyDown key =>
      if String.eqb key "Escape" && (mainNav els && navOpen m)
      then closeMobileMenu m else m
  end.

Definition run (es : list event) (m : menu) : menu :=
  fold_left (fun acc e => step e acc) es m.

End Page.

(** Every indicator says the same as the class [open] of the navigation. *)
Definition consistent (m : menu) : Prop :=
  ariaExpanded m = Some (to_string (navOpen m)) /\
  overlayActive m = navOpen m /\
  overlayAriaHidden m = Some (to_string (negb (navOpen m))) /\
  bodyOverflow m = (if navOpen m then "hidden"%string else ""%string).

(** A page that has the navigation, the toggle and the overlay. *)
Definition all : elements := mkElements true true true.

End MobileMenu.

Module Dropdown.

(** The class [open] of each [.has-dropdown] element, in document order;
    toggle [k] is the link directly under element [k]. *)
Definition dropdowns : Type := list bool.

(** [document.querySelectorAll(".has-dropdown.open").forEach(dropdown =>
    { if (dropdown !== parent) dropdown.classList.remove("open") })],
    from element [j] on. *)
Fixpoint closeOthers (parent j : nat) (ds : dropdowns) : dropdowns :=
  match ds with
  | [] => []
  | d :: rest =>
      (if d && negb (Nat.eqb j parent) then false else d)
        :: closeOthers parent (S j) rest
  end.

(** [parent.classList.toggle("open", force)]. *)
Fixpoint setOpen (parent : nat) (force : bool) (ds : dropdowns) : dropdowns :=
  match ds, parent with
  | [], _ => []
  | _ :: rest, O => force :: rest
  | d :: rest, S k => d :: setOpen k force rest
  end.

(** The click handler of toggle [parent]. *)
Definition clickToggle (parent : nat) (innerWidth : Z) (ds : dropdowns) : dropdowns :=
  let isMobile := innerWidth <=? 900 in
  if isMobile then
    let isOpen := nth parent ds false in
    setOpen parent (negb isOpen) (closeOthers parent 0 ds)
  else ds.

(** The click handler of the document, for a click outside every
    [.has-dropdown]. *)
Definition clickOutside (ds : dropdowns) : dropdowns :=
  map (fun d : bool => if d then false else d) ds.

End Dropdown.

(** ** The treatment pages: FAQ buttons *)

Module FaqButton.

(** One [.faq-question] button: its [aria-expanded] attribute and the
    class [active] of its parent. *)
Record faq : Type := mkFaq {
  ariaExpanded : option string;
  active : bool
}.

Definition isTrue (a : option string) : bool :=
  match a with
  | Some v => String.eqb v "true"
  | None => false
  end.

Definition click (s : faq) : faq :=
  let expanded := isTrue (ariaExpanded s) in
  mkFaq (Some (MobileMenu.to_string (negb expanded))) (negb (active s)).

End FaqButton.

(** ** The main script: form validation *)

Module Text.

(** A JavaScript string: its UTF-16 code units. *)
Definition char : Type := N.
Definition str : Type := list char.

(** White space and line terminators of ECMAScript: what [\s] matches and
    what [trim] removes. *)
Definition is_space (c : char) : bool :=
  ((c =? 9) || (c =? 10) || (c =? 11) || (c =? 12) || (c =? 13) ||
   (c =? 32) || (c =? 160) || (c =? 5760) ||
   ((8192 <=? c) && (c <=? 8202)) ||
   (c =? 8232) || (c =? 8233) || (c =? 8239) || (c =? 8287) ||
   (c =? 12288) || (c =? 65279))%N.

Definition not_space (c : char) : bool := negb (is_space c).

Fixpoint trimStart (s : str) : str :=
  match s with
  | [] => []
  | c :: rest => if is_space c then trimStart rest else s
  end.

Definition trimEnd (s : str) : str := rev (trimStart (rev s)).

Definition trim (s : str) : str := trimEnd (trimStart s).

(** [!s] on a string. *)
Definition is_empty (s : str) : bool :=
  match s with
  | [] => true
  | _ :: _ => false
  end.

End Text.

Module Regex.

Import Text.

(** Regular expressions over code units, enough for the patterns of the
    script: no captures, no look-around. *)
Inductive regex : Type :=
| Void
| Eps
| Class (p : char -> bool)
| Alt (r1 r2 : regex)
| Seq (r1 r2 : regex)
| Star (r : regex).

(** [r+]. *)
Definition Plus (r : regex) : regex := Seq r (Star r).

Fixpoint nullable (r : regex) : bool :=
  match r with
  | Void => false
  | Eps => true
  | Class _ => false
  | Alt r1 r2 => nullable r1 || nullable r2
  | Seq r1 r2 => nullable r1 && nullable r2
  | Star _ => true
  end.

(** What is left of [r] once it has read [c]. *)
Fixpoint deriv (c : char) (r : regex) : regex :=
  match r with
  | Void => Void
  | Eps => Void
  | Class p => if p c then Eps else Void
  | Alt r1 r2 => Alt (deriv c r1) (deriv c r2)
  | Seq r1 r2 =>
      if nullable r1 then Alt (Seq (deriv c r1) r2) (deriv c r2)
      else Seq (deriv c r1) r2
  | Star r1 => Seq (deriv c r1) (Star r1)
  end.

(** [/^r$/.test(s)]: the whole of [s] matches [r]. *)
Fixpoint matches (r : regex) (s : str) : bool :=
  match s with
  | [] => nullable r
  | c :: rest => matches (deriv c r) rest
  end.

(** The strings a regular expression stands for. *)
Inductive denotes : regex -> str -> Prop :=
| DEps : denotes Eps []
| DClass (p : char -> bool) (c : char) : p c = true -> denotes (Class p) [c]
| DAltL (r1 r2 : regex) (s : str) : denotes r1 s -> denotes (Alt r1 r2) s
| DAltR (r1 r2 : regex) (s : str) : denotes r2 s -> denotes (Alt r1 r2) s
| DSeq (r1 r2 : regex) (s1 s2 : str) :
    denotes r1 s1 -> denotes r2 s2 -> denotes (Seq r1 r2) (s1 ++ s2)
| DStarNil (r : regex) : denotes (Star r) []
| DStarApp (r : regex) (s1 s2 : str) :
    denotes r s1 -> denotes (Star r) s2 -> denotes (Star r) (s1 ++ s2).

End Regex.

Module Forms.

Import Text Regex.

Definition at_sign : char := 64%N.
Definition full_stop : char := 46%N.

(** [[^\s@]]. *)
Definition plain (c : char) : bool := negb (is_space c || (c =? at_sign)%N).

(** [/^[^\s@]+@[^\s@]+\.[^\s@]+$/]. *)
Definition emailPattern : regex :=
  Seq (Plus (Class plain))
      (Seq (Class (N.eqb at_sign))
           (Seq (Plus (Class plain))
                (Seq (Class (N.eqb full_stop))
                     (Plus (Class plain))))).

Definition isValidEmail (email : str) : bool := matches emailPattern email.

(** An input in a [.form-group] of its own: its value, the text of the
    [.error-message] elements of the group in document order, and the
    border colour of the input. *)
Record field : Type := mkField {
  value : str;
  errors : list string;
  borderColor : string
}.

(** The first [.error-message] of the group gets the message; one is
    appended when the group has none. *)
Definition showError (message : string) (input : field) : field :=
  mkField (value input)
          (match errors input with
           | [] => [message]
           | _ :: rest => message :: rest
           end)
          "#c00".

(** The first [.error-message] of the group, if any, is removed. *)
Definition clearError (input : field) : field :=
  mkField (value input) (tl (errors input)) "".

Record insuranceForm : Type := mkInsuranceForm {
  phone : field;
  email : field;
  provider : field
}.

(** The body of the request to [/api/insurance]. *)
Record insuranceRequest : Type := mkInsuranceRequest {
  req_phone : str;
  req_email : str;
  req_provider : str
}.

Definition phoneMessage : string := "Please enter your phone number".
Definition emailMessage : string := "Please enter a valid email address".
Definition providerMessage : string := "Please select your insurance provider".

(** The submit handler of an [.insurance-form], up to the [fetch]: the
    form with its errors shown or cleared, and the request that is sent
    ([None] when [isValid] is false and nothing is sent). The three inputs
    are taken to be on the page. *)
Definition submitInsurance (f : insuranceForm) : insuranceForm * option insuranceRequest :=
  let isValid := true in
  let '(phone', isValid) :=
    if is_empty (trim (value (phone f)))
    then (showError phoneMessage (phone f), false)
    else (clearError (phone f), isValid) in
  let '(email', isValid) :=
    if is_empty (trim (value (email f))) || negb (isValidEmail (value (email f)))
    then (showError emailMessage (email f), false)
    else (clearError (email f), isValid) in
  let '(provider', isValid) :=
    if is_empty (value (provider f))
    then (showError providerMessage (provider f), false)
    else (clearError (provider f), isValid) in
  (mkInsuranceForm phone' email' provider',
   if isValid
   then Some (mkInsuranceRequest (trim (value (phone f)))
                                 (trim (value (email f)))
                                 (value (provider f)))
   else None).

(** No [.error-message] in the group of the input. *)
Definition no_error (input : field) : bool :=
  match errors input with
  | [] => true
  | _ :: _ => false
  end.

Definition is_some {A : Type} (o : option A) : bool :=
  match o with
  | Some _ => true
  | None => false
  end.

End Forms.

(** ** Properties of the carousel *)

Module CarouselFacts.

Import Carousel.

Lemma currentIndex_updateDots (s : state) :
  currentIndex (updateDots s) = currentIndex s.
Proof. unfold updateDots. destruct (dots s); reflexivity. Qed.

Lemma touch_updateDots (s : state) :
  touchStartX (updateDots s) = touchStartX s /\
  touchEndX (updateDots s) = touchEndX s.
Proof. unfold updateDots. destruct (dots s); split; reflexivity. Qed.

(** The index [goToSlide] stores, read off its three branches. *)
Lemma currentIndex_goToSlide (totalSlides index : Z) (s : state) :
  currentIndex (goToSlide totalSlides index s) =
    if index <? 0 then totalSlides - 1
    else if index >=? totalSlides then 0
    else index.
Proof. unfold goToSlide. rewrite currentIndex_updateDots. reflexivity. Qed.

Lemma goToSlide_in_range (totalSlides index : Z) (s : state) :
  1 <= totalSlides -> in_range totalSlides (goToSlide totalSlides index s).
Proof.
  intros Htotal. unfold in_range. rewrite currentIndex_goToSlide.
  destruct (Z.ltb_spec index 0); [lia|].
  destruct (Z.geb_spec index totalSlides); lia.
Qed.

(** One step forward from a slide of the carousel is the successor
    modulo [totalSlides]. *)
Lemma currentIndex_nextSlide (totalSlides : Z) (s : state) :
  in_range totalSlides s ->
  currentIndex (nextSlide totalSlides s) = (currentIndex s + 1) mod totalSlides.
Proof.
  unfold in_range, nextSlide. intros Hs. rewrite currentIndex_goToSlide.
  destruct (Z.ltb_spec (currentIndex s + 1) 0); [lia|].
  destruct (Z.geb_spec (currentIndex s + 1) totalSlides).
  - replace (currentIndex s + 1) with totalSlides by lia.
    symmetry. apply Z.mod_same. lia.
  - symmetry. apply Z.mod_small. lia.
Qed.

Lemma currentIndex_prevSlide (totalSlides : Z) (s : state) :
  in_range totalSlides s ->
  currentIndex (prevSlide totalSlides s) = (currentIndex s - 1) mod totalSlides.
Proof.
  unfold in_range, prevSlide. intros Hs. rewrite currentIndex_goToSlide.
  destruct (Z.ltb_spec (currentIndex s - 1) 0).
  - replace (currentIndex s - 1) with (-1) by lia.
    apply Z.mod_unique with (q := -1); lia.
  - destruct (Z.geb_spec (currentIndex s - 1) totalSlides); [lia|].
    symmetry. apply Z.mod_small. lia.
Qed.

Example goTo_minus1_of_5 (s : state) : currentIndex (goToSlide 5 (-1) s) = 4.
Proof. rewrite currentIndex_goToSlide. reflexivity. Qed.

Example goTo_5_of_5 (s : state) : currentIndex (goToSlide 5 5 s) = 0.
Proof. rewrite currentIndex_goToSlide. reflexivity. Qed.

(** C1, as stated, fails: on a carousel of 5 slides [goToSlide (-2)]
    stores 4, the last slide, while [(-2) mod 5] is 3. *)
Lemma goToSlide_minus2_is_not_mod :
  currentIndex (goToSlide 5 (-2) (initial true 5)) <> (-2) mod 5.
Proof. vm_compute. discriminate. Qed.

(** C1, amended: with at least one slide, [goToSlide index] stores the
    last slide for every negative [index], the first slide for every
    [index] at or past [totalSlides], and [index] itself in between; it
    agrees with [index mod totalSlides] for [-1 <= index <= totalSlides],
    the indices one step away from a slide of the carousel. *)
Theorem goToSlide_wraps_to_edge (totalSlides index : Z) (s : state) :
  1 <= totalSlides ->
  (index < 0 -> currentIndex (goToSlide totalSlides index s) = totalSlides - 1) /\
  (totalSlides <= index -> currentIndex (goToSlide totalSlides index s) = 0) /\
  (0 <= index < totalSlides ->
     currentIndex (goToSlide totalSlides index s) = index) /\
  (-1 <= index <= totalSlides ->
     currentIndex (goToSlide totalSlides index s) = index mod totalSlides).
Proof.
  intros Htotal. rewrite currentIndex_goToSlide.
  destruct (Z.ltb_spec index 0) as [Hneg | Hnonneg].
  - repeat split; intros; try lia.
    replace index with (-1) by lia.
    apply Z.mod_unique with (q := -1); lia.
  - destruct (Z.geb_spec index totalSlides) as [Hpast | Hin].
    + repeat split; intros; try lia.
      replace index with totalSlides by lia.
      symmetry. apply Z.mod_same. lia.
    + repeat split; intros; try lia.
      symmetry. apply Z.mod_small. lia.
Qed.

Lemma goToSlide_wraps_to_edge_witness :
  1 <= 5 /\ -1 <= -1 <= 5 /\
  currentIndex (goToSlide 5 (-1) (initial true 5)) = (-1) mod 5.
Proof.
  assert (H1 : 1 <= 5) by (vm_compute; discriminate).
  assert (H2 : -1 <= -1 <= 5) by (split; vm_compute; discriminate).
  split; [exact H1|]. split; [exact H2|].
  exact (proj2 (proj2 (proj2
           (goToSlide_wraps_to_edge 5 (-1) (initial true 5) H1))) H2).
Defined.

(** *** Swipes *)

Lemma handleSwipe_next (totalSlides : Z) (s : state) :
  touchStartX s - touchEndX s > swipeThreshold ->
  handleSwipe totalSlides s = nextSlide totalSlides s.
Proof.
  unfold handleSwipe, swipeThreshold. intros Hd.
  destruct (Z.gtb_spec (Z.abs (touchStartX s - touchEndX s)) 50); [|lia].
  destruct (Z.gtb_spec (touchStartX s - touchEndX s) 0); [reflexivity|lia].
Qed.

Lemma handleSwipe_prev (totalSlides : Z) (s : state) :
  touchEndX s - touchStartX s > swipeThreshold ->
  handleSwipe totalSlides s = prevSlide totalSlides s.
Proof.
  unfold handleSwipe, swipeThreshold. intros Hd.
  destruct (Z.gtb_spec (Z.abs (touchStartX s - touchEndX s)) 50); [|lia].
  destruct (Z.gtb_spec (touchStartX s - touchEndX s) 0); [lia|reflexivity].
Qed.

Lemma handleSwipe_noop (totalSlides : Z) (s : state) :
  Z.abs (touchStartX s - touchEndX s) <= swipeThreshold ->
  handleSwipe totalSlides s = s.
Proof.
  unfold handleSwipe, swipeThreshold. intros Hd.
  destruct (Z.gtb_spec (Z.abs (touchStartX s - touchEndX s)) 50); [lia|reflexivity].
Qed.

Example swipe_40_is_noop :
  currentIndex (swipe 5 100 60 (goToSlide 5 2 (initial true 5))) = 2.
Proof. reflexivity. Qed.

Example swipe_60_left_advances :
  currentIndex (swipe 5 100 40 (goToSlide 5 2 (initial true 5))) = 3.
Proof. reflexivity. Qed.

Example swipe_60_left_wraps :
  currentIndex (swipe 5 100 40 (goToSlide 5 4 (initial true 5))) = 0.
Proof. reflexivity. Qed.

Example swipe_60_right_goes_back :
  currentIndex (swipe 5 40 100 (goToSlide 5 2 (initial true 5))) = 1.
Proof. reflexivity. Qed.

(** C3: a touch that starts at [x0] and ends at [x1] on a carousel showing
    one of its slides. More than 50 px to the left ([x0 - x1 > 50]) is
    [nextSlide], one slide forward with wrap-around; more than 50 px to
    the right is [prevSlide]; less than 50 px either way only records the
    two coordinates and leaves [currentIndex] as it was. *)
Theorem swipe_beyond_threshold (totalSlides x0 x1 : Z) (s : state) :
  1 <= totalSlides ->
  in_range totalSlides s ->
  (x0 - x1 > 50 ->
     swipe totalSlides x0 x1 s =
       nextSlide totalSlides
         (mkState (currentIndex s) (transform s) (dots s) x0 x1) /\
     currentIndex (swipe totalSlides x0 x1 s) =
       (currentIndex s + 1) mod totalSlides) /\
  (x1 - x0 > 50 ->
     swipe totalSlides x0 x1 s =
       prevSlide totalSlides
         (mkState (currentIndex s) (transform s) (dots s) x0 x1) /\
     currentIndex (swipe totalSlides x0 x1 s) =
       (currentIndex s - 1) mod totalSlides) /\
  (Z.abs (x0 - x1) < 50 ->
     swipe totalSlides x0 x1 s =
       mkState (currentIndex s) (transform s) (dots s) x0 x1 /\
     currentIndex (swipe totalSlides x0 x1 s) = currentIndex s).
Proof.
  intros Htotal Hs. unfold swipe. cbn [step currentIndex transform dots touchStartX touchEndX].
  set (s' := mkState (currentIndex s) (transform s) (dots s) x0 x1).
  assert (Hs' : in_range totalSlides s') by exact Hs.
  split; [|split]; intros Hd; split.
  - apply handleSwipe_next. unfold swipeThreshold. exact Hd.
  - rewrite handleSwipe_next by exact Hd.
    apply (currentIndex_nextSlide totalSlides s' Hs').
  - apply handleSwipe_prev. exact Hd.
  - rewrite handleSwipe_prev by exact Hd.
    apply (currentIndex_prevSlide totalSlides s' Hs').
  - apply handleSwipe_noop. unfold swipeThreshold. cbn. lia.
  - rewrite handleSwipe_noop by (unfold swipeThreshold; cbn; lia).
    reflexivity.
Qed.

Lemma swipe_beyond_threshold_witness :
  1 <= 5 /\ in_range 5 (initial true 5) /\ 100 - 40 > 50 /\
  currentIndex (swipe 5 100 40 (initial true 5)) =
    (currentIndex (initial true 5) + 1) mod 5.
Proof.
  assert (H1 : 1 <= 5) by (vm_compute; discriminate).
  assert (H2 : in_range 5 (initial true 5))
    by (split; vm_compute; discriminate).
  assert (H3 : 100 - 40 > 50) by reflexivity.
  split; [exact H1|]. split; [exact H2|]. split; [exact H3|].
  exact (proj2 (proj1
           (swipe_beyond_threshold 5 100 40 (initial true 5) H1 H2) H3)).
Defined.

(** C10: a touch that ends exactly 50 px from where it started is no
    swipe. The test is [Math.abs(diff) > 50], so the handler only records
    the coordinates: neither [nextSlide] nor [prevSlide] runs, nothing of
    the page is written and [currentIndex] stays. *)
Theorem swipe_at_threshold_is_noop (totalSlides x0 x1 : Z) (s : state) :
  Z.abs (x0 - x1) = 50 ->
  swipe totalSlides x0 x1 s =
    mkState (currentIndex s) (transform s) (dots s) x0 x1 /\
  currentIndex (swipe totalSlides x0 x1 s) = currentIndex s.
Proof.
  intros Hd. unfold swipe. cbn [step currentIndex transform dots touchStartX touchEndX].
  rewrite handleSwipe_noop by (unfold swipeThreshold; cbn; lia).
  split; reflexivity.
Qed.

Lemma swipe_at_threshold_is_noop_witness :
  Z.abs (100 - 50) = 50 /\
  swipe 5 100 50 (initial true 5) =
    mkState 0 None (dots (initial true 5)) 100 50 /\
  swipe 5 50 100 (initial true 5) =
    mkState 0 None (dots (initial true 5)) 50 100.
Proof.
  split; [reflexivity|]. split.
  - exact (proj1 (swipe_at_threshold_is_noop 5 100 50 (initial true 5) eq_refl)).
  - exact (proj1 (swipe_at_threshold_is_noop 5 50 100 (initial true 5) eq_refl)).
Defined.

(** *** The index stays on a slide *)

Lemma handleSwipe_in_range (totalSlides : Z) (s : state) :
  1 <= totalSlides ->
  in_range totalSlides s -> in_range totalSlides (handleSwipe totalSlides s).
Proof.
  intros Htotal Hs. unfold handleSwipe.
  destruct (Z.abs (touchStartX s - touchEndX s) >? swipeThreshold); [|exact Hs].
  destruct (touchStartX s - touchEndX s >? 0);
    apply goToSlide_in_range; exact Htotal.
Qed.

Lemma step_in_range (totalSlides : Z) (e : event) (s : state) :
  1 <= totalSlides ->
  in_range totalSlides s -> in_range totalSlides (step totalSlides e s).
Proof.
  intros Htotal Hs.
  destruct e as [ | | i | key | x | x]; cbn [step];
    try (apply goToSlide_in_range; exact Htotal).
  - destruct (String.eqb key "ArrowLeft");
      [apply goToSlide_in_range; exact Htotal|].
    destruct (String.eqb key "ArrowRight");
      [apply goToSlide_in_range; exact Htotal|exact Hs].
  - exact Hs.
  - apply handleSwipe_in_range; [exact Htotal|exact Hs].
Qed.

Lemma run_in_range (totalSlides : Z) (es : list event) :
  1 <= totalSlides ->
  forall s, in_range totalSlides s -> in_range totalSlides (run totalSlides es s).
Proof.
  intros Htotal. unfold run.
  induction es as [|e es IH]; intros s Hs; cbn [fold_left].
  - exact Hs.
  - apply IH. apply step_in_range; assumption.
Qed.

(** What [init] returns when it does not return early: the slide count is
    at least 1 and the state is [initial]. *)
Lemma init_active (document : option carouselEl) (c : controller) :
  init document = Ok (Some c) ->
  exists el,
    document = Some el /\
    total c = Z.of_nat (List.length (gallery_slides el)) /\
    1 <= total c /\
    st c = initial (negb (is_null (gallery_dots el)))
                   (List.length (gallery_slides el)).
Proof.
  destruct document as [el|]; cbn; [|discriminate].
  destruct el as [track slides prevBtn nextBtn dotsContainer]; cbn.
  destruct track as [t|]; cbn; [|discriminate].
  destruct slides as [|sl slides]; cbn [List.length Nat.eqb]; [discriminate|].
  unfold createDots.
  destruct dotsContainer, prevBtn, nextBtn; cbn -[Z.of_nat createDotsFrom];
    intros H; injection H as <-;
    (eexists; split; [reflexivity|]);
    cbn -[Z.of_nat createDotsFrom]; repeat split; lia.
Qed.

(** A page with a track and at least one slide gets a controller: it
    counts the slides and starts on the first one. *)
Lemma init_with_track_and_slides
    (track slide : node) (slides : list node)
    (prevBtn nextBtn dotsContainer : option node) :
  exists c,
    init (Some (mkCarouselEl (Some track) (slide :: slides)
                  prevBtn nextBtn dotsContainer)) = Ok (Some c) /\
    total c = Z.of_nat (S (List.length slides)) /\
    st c = initial (negb (is_null dotsContainer)) (S (List.length slides)).
Proof.
  unfold init, createDots.
  cbn [is_null deref bind gallery_track gallery_slides gallery_prev gallery_next
       gallery_dots orb List.length Nat.eqb].
  destruct dotsContainer, prevBtn, nextBtn;
    cbn [is_null deref bind addEventListener negb];
    eexists; (split; [reflexivity|]); split; reflexivity.
Qed.

(** C4: [currentIndex] starts at 0 and, on a carousel of at least one
    slide, stays within [0, totalSlides - 1]. Start-up on a page with a
    track and at least one slide returns a controller on slide 0 that
    counts the slides (and whatever controller start-up returns is on slide
    0 with at least one slide); [goToSlide] (whatever the index),
    [nextSlide] and [prevSlide] land in the range from any state, every
    event the listeners handle (arrow buttons, dots, keys, touches) keeps
    the index there, and so does every sequence of events from the start. *)
Theorem currentIndex_stays_in_range (totalSlides : Z) :
  1 <= totalSlides ->
  (forall hasDots n, currentIndex (initial hasDots n) = 0) /\
  (forall document c, init document = Ok (Some c) ->
     currentIndex (st c) = 0 /\ 1 <= total c) /\
  (forall track slide slides prevBtn nextBtn dotsContainer,
     exists c,
       init (Some (mkCarouselEl (Some track) (slide :: slides)
                     prevBtn nextBtn dotsContainer)) = Ok (Some c) /\
       total c = Z.of_nat (S (List.length slides)) /\
       st c = initial (negb (is_null dotsContainer)) (S (List.length slides)) /\
       currentIndex (st c) = 0 /\
       forall es, in_range (total c) (run (total c) es (st c))) /\
  (forall index s, in_range totalSlides (goToSlide totalSlides index s)) /\
  (forall s, in_range totalSlides (nextSlide totalSlides s)) /\
  (forall s, in_range totalSlides (prevSlide totalSlides s)) /\
  (forall e s, in_range totalSlides s ->
     in_range totalSlides (step totalSlides e s)) /\
  (forall hasDots n es,
     in_range totalSlides (run totalSlides es (initial hasDots n))).
Proof.
  intros Htotal.
  split; [reflexivity|].
  split.
  { intros document c Hinit.
    destruct (init_active document c Hinit) as (el & _ & _ & Hpos & Hst).
    rewrite Hst. split; [reflexivity|exact Hpos]. }
  split.
  { intros track slide slides prevBtn nextBtn dotsContainer.
    destruct (init_with_track_and_slides track slide slides
                prevBtn nextBtn dotsContainer) as (c & Hinit & Htot & Hst).
    exists c. split; [exact Hinit|]. split; [exact Htot|]. split; [exact Hst|].
    split; [rewrite Hst; reflexivity|].
    intros es. apply run_in_range; [lia|].
    rewrite Hst, Htot. unfold in_range, initial. cbn [currentIndex]. lia. }
  split; [intros; apply goToSlide_in_range; exact Htotal|].
  split; [intros; apply goToSlide_in_range; exact Htotal|].
  split; [intros; apply goToSlide_in_range; exact Htotal|].
  split; [intros; apply step_in_range; assumption|].
  intros hasDots n es. apply run_in_range; [exact Htotal|].
  unfold in_range. cbn. lia.
Qed.

Lemma currentIndex_stays_in_range_witness :
  1 <= 3 /\
  (exists c,
     init (Some (mkCarouselEl (Some (Node 1)) [Node 2; Node 3; Node 4]
                   (Some (Node 5)) (Some (Node 6)) (Some (Node 7)))) = Ok (Some c) /\
     total c = 3 /\
     currentIndex (st c) = 0 /\
     in_range (total c)
       (run (total c)
            [ClickPrev; KeyDown "ArrowRight"; ClickDot 2; TouchStart 200;
             TouchEnd 90; ClickNext] (st c))) /\
  in_range 3
    (run 3 [ClickPrev; KeyDown "ArrowRight"; ClickDot 2; TouchStart 200;
            TouchEnd 90; ClickNext] (initial true 3)).
Proof.
  assert (H1 : 1 <= 3) by (vm_compute; discriminate).
  split; [exact H1|]. split.
  - destruct (proj1 (proj2 (proj2 (currentIndex_stays_in_range 3 H1)))
                (Node 1) (Node 2) [Node 3; Node 4]
                (Some (Node 5)) (Some (Node 6)) (Some (Node 7)))
      as (c & Hinit & Htot & _ & Hzero & Hrun).
    exists c. split; [exact Hinit|]. split; [exact Htot|].
    split; [exact Hzero|]. apply Hrun.
  - exact (proj2 (proj2 (proj2 (proj2 (proj2 (proj2 (proj2
             (currentIndex_stays_in_range 3 H1)))))))
             true 3%nat
             [ClickPrev; KeyDown "ArrowRight"; ClickDot 2; TouchStart 200;
              TouchEnd 90; ClickNext]).
Defined.

(** *** Going round *)

Lemma iter_nextSlide (totalSlides : Z) (s : state) :
  1 <= totalSlides ->
  in_range totalSlides s ->
  forall n : nat,
    in_range totalSlides (Nat.iter n (nextSlide totalSlides) s) /\
    currentIndex (Nat.iter n (nextSlide totalSlides) s) =
      (currentIndex s + Z.of_nat n) mod totalSlides.
Proof.
  intros Htotal Hs n. induction n as [|n [IHr IHc]].
  - cbn [Nat.iter nat_rect]. split; [exact Hs|].
    change (Z.of_nat 0) with 0. rewrite Z.add_0_r.
    symmetry. apply Z.mod_small.
    unfold in_range in Hs. lia.
  - change (Nat.iter (S n) (nextSlide totalSlides) s)
      with (nextSlide totalSlides (Nat.iter n (nextSlide totalSlides) s)).
    split.
    + apply goToSlide_in_range. exact Htotal.
    + rewrite currentIndex_nextSlide by exact IHr.
      rewrite IHc, Z.add_mod_idemp_l by lia.
      f_equal. lia.
Qed.

Example nextSlide_5_times :
  map (fun n => currentIndex (Nat.iter n (nextSlide 5) (goToSlide 5 3 (initial true 5))))
      [0; 1; 2; 3; 4; 5]%nat = [3; 4; 0; 1; 2; 3].
Proof. reflexivity. Qed.

(** C5: from any slide of a carousel, [nextSlide] called [totalSlides]
    times shows the slide it started from. *)
Theorem nextSlide_cycle (totalSlides : Z) (s : state) :
  1 <= totalSlides ->
  in_range totalSlides s ->
  currentIndex (Nat.iter (Z.to_nat totalSlides) (nextSlide totalSlides) s) =
    currentIndex s.
Proof.
  intros Htotal Hs.
  destruct (iter_nextSlide totalSlides s Htotal Hs (Z.to_nat totalSlides))
    as [_ ->].
  rewrite Z2Nat.id by lia.
  rewrite <- (Z.mul_1_l totalSlides) at 1.
  rewrite Z.mod_add by lia.
  apply Z.mod_small. unfold in_range in Hs. lia.
Qed.

Lemma nextSlide_cycle_witness :
  1 <= 5 /\ in_range 5 (goToSlide 5 3 (initial true 5)) /\
  currentIndex (Nat.iter (Z.to_nat 5) (nextSlide 5) (goToSlide 5 3 (initial true 5))) =
    currentIndex (goToSlide 5 3 (initial true 5)).
Proof.
  assert (H1 : 1 <= 5) by (vm_compute; discriminate).
  assert (H2 : in_range 5 (goToSlide 5 3 (initial true 5)))
    by (split; vm_compute; discriminate).
  split; [exact H1|]. split; [exact H2|].
  exact (nextSlide_cycle 5 (goToSlide 5 3 (initial true 5)) H1 H2).
Defined.

(** C9: on a carousel showing one of its slides, [nextSlide] then
    [prevSlide] shows the same slide again, and so does [prevSlide] then
    [nextSlide]; the first and the last slide are no exception. *)
Theorem nextSlide_prevSlide_inverse (totalSlides : Z) (s : state) :
  1 <= totalSlides ->
  in_range totalSlides s ->
  currentIndex (prevSlide totalSlides (nextSlide totalSlides s)) = currentIndex s /\
  currentIndex (nextSlide totalSlides (prevSlide totalSlides s)) = currentIndex s.
Proof.
  unfold in_range, nextSlide, prevSlide. intros Htotal Hs.
  rewrite !currentIndex_goToSlide. split.
  - destruct (Z.ltb_spec (currentIndex s + 1) 0); [lia|].
    destruct (Z.geb_spec (currentIndex s + 1) totalSlides).
    + cbn. lia.
    + destruct (Z.ltb_spec (currentIndex s + 1 - 1) 0); [lia|].
      destruct (Z.geb_spec (currentIndex s + 1 - 1) totalSlides); lia.
  - destruct (Z.ltb_spec (currentIndex s - 1) 0).
    + destruct (Z.ltb_spec (totalSlides - 1 + 1) 0); [lia|].
      destruct (Z.geb_spec (totalSlides - 1 + 1) totalSlides); lia.
    + destruct (Z.geb_spec (currentIndex s - 1) totalSlides); [lia|].
      destruct (Z.ltb_spec (currentIndex s - 1 + 1) 0); [lia|].
      destruct (Z.geb_spec (currentIndex s - 1 + 1) totalSlides); lia.
Qed.

Lemma nextSlide_prevSlide_inverse_witness :
  1 <= 5 /\ in_range 5 (goToSlide 5 4 (initial true 5)) /\
  currentIndex (prevSlide 5 (nextSlide 5 (goToSlide 5 4 (initial true 5)))) = 4 /\
  currentIndex (nextSlide 5 (prevSlide 5 (initial true 5))) = 0.
Proof.
  assert (H1 : 1 <= 5) by (vm_compute; discriminate).
  assert (H2 : in_range 5 (goToSlide 5 4 (initial true 5)))
    by (split; vm_compute; discriminate).
  assert (H3 : in_range 5 (initial true 5))
    by (split; vm_compute; discriminate).
  split; [exact H1|]. split; [exact H2|]. split.
  - exact (proj1 (nextSlide_prevSlide_inverse 5 _ H1 H2)).
  - exact (proj2 (nextSlide_prevSlide_inverse 5 _ H1 H3)).
Defined.

End CarouselFacts.

(** ** Properties of the accordion *)

Module AccordionFacts.

Import Accordion.

(** *** Concrete runs *)

Example open_then_transitionend (h : Z) :
  run [Click h; TransitionEnd] (mkItem false (Px 0) [] 0 0) =
    mkItem true Auto [] 1 2.
Proof. reflexivity. Qed.

Example close_then_transitionend (h : Z) :
  run [Click h; TransitionEnd] (mkItem true Auto [] 1 2) =
    mkItem false (Px 0) [] 2 4.
Proof. reflexivity. Qed.

Example open_and_close_one_after_the_other (h1 h2 : Z) :
  run [Click h1; TransitionEnd; Click h2; TransitionEnd]
      (mkItem false (Px 0) [] 0 0) =
    mkItem false (Px 0) [] 2 4.
Proof. reflexivity. Qed.

Example second_click_before_transitionend (h1 h2 : Z) :
  run [Click h1; Click h2] (mkItem false (Px 0) [] 0 0) =
    mkItem true (Px 0)
      [mkRegistration 0 openingHandler true;
       mkRegistration 1 closingHandler true] 2 4.
Proof. reflexivity. Qed.

(** C2: an item that starts closed, is clicked twice before any
    [transitionend] arrives, and then receives the [transitionend] of the
    collapse. Both pending callbacks run: the one left by the first click
    writes ["auto"] over the ["0"] the second click had set, then the one
    of the second click removes [open]. The item ends closed with height
    ["auto"], not ["0"]. *)
Theorem double_click_ends_closed_with_auto_height
    (summary : Dom.node) (content : contentEl) (h1 h2 : Z) :
  height (started (mkItemEl (Some summary) (Some content) false) content) = Px 0 /\
  height (run [Click h1; Click h2]
            (started (mkItemEl (Some summary) (Some content) false) content)) = Px 0 /\
  open (run [Click h1; Click h2; TransitionEnd]
          (started (mkItemEl (Some summary) (Some content) false) content)) = false /\
  height (run [Click h1; Click h2; TransitionEnd]
            (started (mkItemEl (Some summary) (Some content) false) content)) = Auto /\
  listeners (run [Click h1; Click h2; TransitionEnd]
               (started (mkItemEl (Some summary) (Some content) false) content)) = [].
Proof. cbn. repeat split; reflexivity. Qed.

(** *** Listeners and their delivery *)

Lemma registered_unregister_other (id id' : nat) (ls : list registration) :
  id' <> id -> registered id (unregister id' ls) = registered id ls.
Proof.
  intros Hne. unfold registered, unregister.
  induction ls as [|r ls IH]; cbn [filter existsb]; [reflexivity|].
  destruct (Nat.eqb_spec (lid r) id') as [Heq|Hneq]; cbn [negb existsb].
  - rewrite IH. destruct (Nat.eqb_spec (lid r) id); [congruence|reflexivity].
  - rewrite IH. reflexivity.
Qed.

Lemma listeners_handler (id : nat) (f : callback) (s : item) :
  listeners (exec_all (handler_ops id f) s) = unregister id (listeners s).
Proof. destruct f; reflexivity. Qed.

Lemma fresh_handler (id : nat) (f : callback) (s : item) :
  fresh (exec_all (handler_ops id f) s) = fresh s.
Proof. destruct f; reflexivity. Qed.

Lemma dispatch_app (a b : list registration) :
  forall s, dispatch (a ++ b) s = dispatch b (dispatch a s).
Proof.
  induction a as [|r a IH]; intros s; cbn [app dispatch]; [reflexivity|].
  destruct (registered (lid r) (listeners s)); apply IH.
Qed.

(** Delivery to other listeners leaves a registration in place. *)
Lemma dispatch_registered_other (id : nat) (snapshot : list registration) :
  Forall (fun r => lid r <> id) snapshot ->
  forall s,
    registered id (listeners (dispatch snapshot s)) = registered id (listeners s).
Proof.
  induction 1 as [|r snapshot Hr _ IH]; intros s; cbn [dispatch]; [reflexivity|].
  destruct (registered (lid r) (listeners s)); [|apply IH].
  rewrite IH, listeners_handler, registered_unregister_other by exact Hr.
  destruct (once r); cbn [exec listeners]; [|reflexivity].
  apply registered_unregister_other. exact Hr.
Qed.

Lemma dispatch_closing (r : registration) (s : item) :
  fn r = closingHandler ->
  registered (lid r) (listeners s) = true ->
  open (dispatch [r] s) = false.
Proof.
  intros Hfn Hreg. cbn [dispatch]. rewrite Hreg, Hfn. reflexivity.
Qed.

(** Delivery only removes listeners and hands out no identity. *)
Lemma dispatch_shrinks (P : registration -> Prop) (snapshot : list registration) :
  forall s,
    Forall P (listeners s) ->
    Forall P (listeners (dispatch snapshot s)) /\
    fresh (dispatch snapshot s) = fresh s.
Proof.
  assert (Hfilter : forall id ls, Forall P ls -> Forall P (unregister id ls)).
  { intros id ls Hls. unfold unregister. rewrite Forall_forall in *.
    intros x Hx. apply filter_In in Hx. apply Hls, Hx. }
  induction snapshot as [|r snapshot IH]; intros s Hs; cbn [dispatch];
    [split; [exact Hs|reflexivity]|].
  destruct (registered (lid r) (listeners s)); [|apply IH; exact Hs].
  destruct (IH (exec_all (handler_ops (lid r) (fn r))
                  (if once r then exec (RemoveTransitionEnd (lid r)) s else s)))
    as [Hl Hf].
  - rewrite listeners_handler. apply Hfilter.
    destruct (once r); [apply Hfilter|]; exact Hs.
  - split; [exact Hl|]. rewrite Hf, fresh_handler.
    destruct (once r); reflexivity.
Qed.

Lemma well_formed_started (it : itemEl) (content : contentEl) :
  well_formed (started it content).
Proof.
  unfold well_formed, started, init_ops.
  destruct (el_open it); constructor.
Qed.

Lemma well_formed_step (e : event) (s : item) :
  well_formed s -> well_formed (step e s).
Proof.
  unfold well_formed. intros Hs. destruct e as [h|]; cbn [step].
  - unfold click, click_ops.
    destruct (open s); cbn -[Nat.ltb];
      (apply Forall_app; split;
       [eapply Forall_impl; [|exact Hs]; cbn; intros; lia
       |constructor; [cbn; lia|constructor]]).
  - unfold transitionEnd.
    destruct (dispatch_shrinks (fun r => (lid r < fresh s)%nat) (listeners s) s Hs)
      as [Hl Hf].
    rewrite Hf. exact Hl.
Qed.

Lemma clicks_keep_open (hs : list Z) :
  forall s, open s = true -> open (run (map Click hs) s) = true.
Proof.
  unfold run. induction hs as [|h hs IH]; intros s Hs; cbn [map fold_left];
    [exact Hs|].
  apply IH. cbn [step]. unfold click, click_ops. rewrite Hs. cbn. exact Hs.
Qed.

Lemma click_open_listeners (h : Z) (s : item) :
  open s = true ->
  listeners (click h s) =
    listeners s ++ [mkRegistration (fresh s) closingHandler true].
Proof. intros Hs. unfold click, click_ops. rewrite Hs. reflexivity. Qed.

(** *** Closing *)

(** C6: a click on an open item leaves [open] set after each statement of
    the handler and after any number of further clicks; the height is
    already ["0"] then. [open] is removed when the [transitionend] is
    delivered, by the callback the click registered. *)
Theorem closing_keeps_open_until_transitionend (s : item) (h : Z) :
  open s = true ->
  well_formed s ->
  Forall (fun s' => open s' = true) (states_of (click_ops s h) s) /\
  open (click h s) = true /\
  height (click h s) = Px 0 /\
  (forall hs, open (run (map Click hs) (click h s)) = true) /\
  open (transitionEnd (click h s)) = false.
Proof.
  intros Hopen Hwf.
  assert (Hclick : open (click h s) = true).
  { unfold click, click_ops. rewrite Hopen. cbn. exact Hopen. }
  split.
  { unfold click_ops. rewrite Hopen. cbn.
    repeat constructor; exact Hopen. }
  split; [exact Hclick|].
  split; [unfold click, click_ops; rewrite Hopen; reflexivity|].
  split; [intros hs; apply clicks_keep_open; exact Hclick|].
  unfold transitionEnd. rewrite (click_open_listeners h s Hopen) at 1.
  rewrite dispatch_app. apply dispatch_closing; [reflexivity|].
  cbn [lid]. rewrite dispatch_registered_other.
  - rewrite (click_open_listeners h s Hopen). unfold registered.
    rewrite existsb_app. cbn. rewrite Nat.eqb_refl.
    apply orb_true_iff. right. reflexivity.
  - unfold well_formed in Hwf.
    eapply Forall_impl; [|exact Hwf]. cbn. intros r Hr. lia.
Qed.

Lemma closing_keeps_open_until_transitionend_witness :
  open (mkItem true (Px 120) [] 0 0) = true /\
  well_formed (mkItem true (Px 120) [] 0 0) /\
  open (click 120 (mkItem true (Px 120) [] 0 0)) = true /\
  open (transitionEnd (click 120 (mkItem true (Px 120) [] 0 0))) = false.
Proof.
  assert (H1 : open (mkItem true (Px 120) [] 0 0) = true) by reflexivity.
  assert (H2 : well_formed (mkItem true (Px 120) [] 0 0))
    by (unfold well_formed; simpl; constructor).
  split; [exact H1|]. split; [exact H2|]. split.
  - exact (proj1 (proj2
             (closing_keeps_open_until_transitionend _ 120 H1 H2))).
  - exact (proj2 (proj2 (proj2 (proj2
             (closing_keeps_open_until_transitionend _ 120 H1 H2))))).
Defined.

(** *** Start-up *)

Example init_two_items :
  init [ mkItemEl (Some (Dom.Node 0)) (Some (mkContentEl 80)) true;
         mkItemEl (Some (Dom.Node 1)) (Some (mkContentEl 64)) false ] =
    Dom.Ok [ Some (mkItem true (Px 80) [] 0 1);
             Some (mkItem false (Px 0) [] 0 0) ].
Proof. reflexivity. Qed.

(** The transition count sees the animations of the click handler: a click
    on a closed item at rest with something to show starts one, and so does
    a click on an opened item at rest. *)
Lemma click_starts_one_transition (h : Z) (ls : list registration) (f r : nat) :
  h <> 0 ->
  transitions_started (Px 0) (Px 0)
    (click_ops (mkItem false (Px 0) ls f r) h) = 1%nat /\
  transitions_started Auto Auto
    (click_ops (mkItem true Auto ls f r) h) = 1%nat.
Proof.
  intros Hh. destruct h as [|p|p]; [congruence| |]; split; reflexivity.
Qed.

(** C7: start-up of an item that has its summary and its content. With
    the [open] attribute it stays open and its content gets the measured
    [scrollHeight] as height; without, the height is ["0"]. Either way the
    start-up code writes the height once, to its final value: the one
    layout it forces (the measurement, on the open branch) comes before the
    write, so no layout ever sees two different lengths and no transition
    starts; no [transitionend] listener is registered, and a [transitionend]
    delivered to the item runs nothing. *)
Theorem init_item_respects_open_attribute
    (summary : Dom.node) (content : contentEl) (isOpen : bool) :
  init_item (mkItemEl (Some summary) (Some content) isOpen) =
    Dom.Ok (Some (started (mkItemEl (Some summary) (Some content) isOpen) content)) /\
  open (started (mkItemEl (Some summary) (Some content) true) content) = true /\
  height (started (mkItemEl (Some summary) (Some content) true) content) =
    Px (scrollHeight content) /\
  open (started (mkItemEl (Some summary) (Some content) false) content) = false /\
  height (started (mkItemEl (Some summary) (Some content) false) content) = Px 0 /\
  height_writes (init_ops (mkItemEl (Some summary) (Some content) isOpen) content) =
    [height (started (mkItemEl (Some summary) (Some content) isOpen) content)] /\
  transitions_started
    (height (markup_item (mkItemEl (Some summary) (Some content) isOpen)))
    (height (markup_item (mkItemEl (Some summary) (Some content) isOpen)))
    (init_ops (mkItemEl (Some summary) (Some content) isOpen) content) = 0%nat /\
  reflows (started (mkItemEl (Some summary) (Some content) isOpen) content) =
    (if isOpen then 1%nat else 0%nat) /\
  listeners (started (mkItemEl (Some summary) (Some content) isOpen) content) = [] /\
  transitionEnd (started (mkItemEl (Some summary) (Some content) isOpen) content) =
    started (mkItemEl (Some summary) (Some content) isOpen) content.
Proof.
  split; [destruct isOpen; reflexivity|].
  split; [reflexivity|]. split; [reflexivity|].
  split; [reflexivity|]. split; [reflexivity|].
  destruct isOpen; repeat split; reflexivity.
Qed.

End AccordionFacts.

(** ** Markup with missing parts *)

Module StartupFacts.

Lemma accordion_init_is_map (items : list Accordion.itemEl) :
  Accordion.init items = Ok (map Accordion.attach items).
Proof.
  unfold Accordion.init.
  induction items as [|it items IH]; cbn [Accordion.forEach map]; [reflexivity|].
  rewrite IH. unfold Accordion.init_item, Accordion.attach.
  destruct (Accordion.el_summary it), (Accordion.el_content it); reflexivity.
Qed.

Lemma carousel_init_never_throws (document : option Carousel.carouselEl) :
  exists r, Carousel.init document = Ok r.
Proof.
  destruct document as [[track slides prevBtn nextBtn dotsContainer]|];
    [|eexists; reflexivity].
  destruct track; [|eexists; reflexivity].
  destruct slides; [eexists; reflexivity|].
  destruct dotsContainer, prevBtn, nextBtn; eexists; reflexivity.
Qed.

Example carousel_init_full :
  option_map Carousel.attached
    match Carousel.init
            (Some (Carousel.mkCarouselEl (Some (Node 1)) [Node 2; Node 3]
                     (Some (Node 4)) (Some (Node 5)) (Some (Node 6)))) with
    | Ok r => r
    | Throw _ => None
    end =
  Some [ (Carousel.OnDot 0, "click"%string); (Carousel.OnDot 1, "click"%string);
         (Carousel.OnPrev, "click"%string); (Carousel.OnNext, "click"%string);
         (Carousel.OnCarousel, "keydown"%string);
         (Carousel.OnTrack, "touchstart"%string);
         (Carousel.OnTrack, "touchend"%string) ].
Proof. reflexivity. Qed.

Example accordion_init_skips_malformed :
  Accordion.init
    [ Accordion.mkItemEl None (Some (Accordion.mkContentEl 80)) true;
      Accordion.mkItemEl (Some (Node 1)) (Some (Accordion.mkContentEl 64)) true;
      Accordion.mkItemEl (Some (Node 2)) None false ] =
    Ok [ None; Some (Accordion.mkItem true (Accordion.Px 64) [] 0 1); None ].
Proof. reflexivity. Qed.

(** C8: start-up never throws. The accordion loop returns normally for
    every list of items, and what it leaves for an item depends on that
    item alone: nothing for one without summary or without content, the
    started item otherwise. The carousel script returns normally for every
    page, and returns early, before any listener is attached and without a
    controller, when the page has no carousel, no track or no slide. *)
Theorem missing_elements_are_skipped
    (items : list Accordion.itemEl) (document : option Carousel.carouselEl) :
  Accordion.init items = Ok (map Accordion.attach items) /\
  (forall content isOpen,
     Accordion.attach (Accordion.mkItemEl None content isOpen) = None) /\
  (forall summary isOpen,
     Accordion.attach (Accordion.mkItemEl summary None isOpen) = None) /\
  (forall summary content isOpen,
     Accordion.attach (Accordion.mkItemEl (Some summary) (Some content) isOpen) =
       Some (Accordion.started
               (Accordion.mkItemEl (Some summary) (Some content) isOpen) content)) /\
  (exists r, Carousel.init document = Ok r) /\
  Carousel.init None = Ok None /\
  (forall slides prevBtn nextBtn dotsContainer,
     Carousel.init
       (Some (Carousel.mkCarouselEl None slides prevBtn nextBtn dotsContainer)) =
       Ok None) /\
  (forall track prevBtn nextBtn dotsContainer,
     Carousel.init
       (Some (Carousel.mkCarouselEl track [] prevBtn nextBtn dotsContainer)) =
       Ok None).
Proof.
  split; [apply accordion_init_is_map|].
  split; [reflexivity|].
  split; [intros [s|] isOpen; reflexivity|].
  split; [reflexivity|].
  split; [apply carousel_init_never_throws|].
  split; [reflexivity|].
  split; [reflexivity|].
  intros [t|] prevBtn nextBtn dotsContainer; reflexivity.
Qed.

End StartupFacts.


(** ** The carousel's view follows its index *)

Module CarouselView.

Import Carousel CarouselShows CarouselFacts.

Lemma length_toggleActive (cur : Z) (ds : list bool) :
  forall index, List.length (toggleActive cur index ds) = List.length ds.
Proof.
  induction ds as [|d ds IH]; intros index; cbn [toggleActive List.length];
    [reflexivity|].
  rewrite IH. reflexivity.
Qed.

(** [updateDots] looks at the number of dots only, not at their classes. *)
Lemma toggleActive_toggleActive (cur cur' : Z) (ds : list bool) :
  forall index index',
    toggleActive cur index (toggleActive cur' index' ds) = toggleActive cur index ds.
Proof.
  induction ds as [|d ds IH]; intros index index'; cbn [toggleActive];
    [reflexivity|].
  rewrite IH. reflexivity.
Qed.

Lemma nth_toggleActive (cur : Z) (ds : list bool) :
  forall index (i : nat),
    (i < List.length ds)%nat ->
    nth i (toggleActive cur index ds) false = (index + Z.of_nat i =? cur).
Proof.
  induction ds as [|d ds IH]; intros index i Hi; cbn [List.length] in Hi; [lia|].
  destruct i as [|i]; cbn [toggleActive nth].
  - rewrite Z.add_0_r. reflexivity.
  - rewrite IH by lia. f_equal. lia.
Qed.

(** Among the dots numbered from [index] on, the one numbered [cur] is
    active and no other. *)
Lemma count_toggleActive (cur : Z) (ds : list bool) :
  forall index,
    count_occ bool_dec (toggleActive cur index ds) true =
      if (index <=? cur) && (cur <? index + Z.of_nat (List.length ds))
      then 1%nat else 0%nat.
Proof.
  induction ds as [|d ds IH]; intros index.
  - cbn [toggleActive List.length count_occ].
    destruct (Z.leb_spec index cur), (Z.ltb_spec cur (index + Z.of_nat 0));
      cbn; try reflexivity; lia.
  - cbn [toggleActive count_occ]. rewrite IH.
    change (List.length (d :: ds)) with (S (List.length ds)).
    destruct (Z.eqb_spec index cur) as [Heq|Hneq].
    + destruct (bool_dec true true) as [_|Hn]; [|congruence].
      destruct (Z.leb_spec (index + 1) cur); [lia|].
      destruct (Z.leb_spec index cur); [|lia].
      destruct (Z.ltb_spec cur (index + Z.of_nat (S (List.length ds)))); [|lia].
      reflexivity.
    + destruct (bool_dec false true) as [Hn|_]; [discriminate|].
      destruct (Z.leb_spec (index + 1) cur), (Z.leb_spec index cur);
        destruct (Z.ltb_spec cur (index + 1 + Z.of_nat (List.length ds)));
        destruct (Z.ltb_spec cur (index + Z.of_nat (S (List.length ds))));
        cbn [andb]; try reflexivity; lia.
Qed.

Lemma length_createDotsFrom (n : nat) :
  forall i, List.length (createDotsFrom i n) = n.
Proof.
  induction n as [|n IH]; intros i; cbn [createDotsFrom List.length];
    [reflexivity|].
  rewrite IH. reflexivity.
Qed.

Lemma createDotsFrom_toggleActive (n : nat) :
  forall i, createDotsFrom i n = toggleActive 0 i (createDotsFrom i n).
Proof.
  induction n as [|n IH]; intros i; cbn [createDotsFrom toggleActive];
    [reflexivity|].
  rewrite <- IH. reflexivity.
Qed.

Lemma dots_goToSlide (totalSlides index : Z) (s : state) :
  dots (goToSlide totalSlides index s) =
    option_map (toggleActive (currentIndex (goToSlide totalSlides index s)) 0)
               (dots s).
Proof.
  unfold goToSlide, updateDots. cbn [dots currentIndex].
  destruct (dots s); reflexivity.
Qed.

Lemma transform_goToSlide (totalSlides index : Z) (s : state) :
  transform (goToSlide totalSlides index s) =
    Some (- (currentIndex (goToSlide totalSlides index s) * 100)).
Proof.
  unfold goToSlide, updateDots. cbn [dots currentIndex transform].
  destruct (dots s); reflexivity.
Qed.

Lemma dots_show_index_goToSlide (totalSlides index : Z) (n : nat) (s : state) :
  dots_show_index n s -> dots_show_index n (goToSlide totalSlides index s).
Proof.
  intros (ds & Hds & Hlen & _). unfold dots_show_index.
  rewrite dots_goToSlide, Hds. cbn [option_map].
  eexists. split; [reflexivity|]. split.
  - rewrite length_toggleActive. exact Hlen.
  - rewrite toggleActive_toggleActive. reflexivity.
Qed.

Lemma dots_show_index_step (totalSlides : Z) (n : nat) (e : event) (s : state) :
  dots_show_index n s -> dots_show_index n (step totalSlides e s).
Proof.
  intros Hs. destruct e as [ | | i | key | x | x]; cbn [step];
    try (apply dots_show_index_goToSlide; exact Hs).
  - destruct (String.eqb key "ArrowLeft");
      [apply dots_show_index_goToSlide; exact Hs|].
    destruct (String.eqb key "ArrowRight");
      [apply dots_show_index_goToSlide; exact Hs|exact Hs].
  - exact Hs.
  - unfold handleSwipe. cbn [touchStartX touchEndX].
    destruct (Z.abs (touchStartX s - x) >? swipeThreshold); [|exact Hs].
    destruct (touchStartX s - x >? 0);
      apply dots_show_index_goToSlide; exact Hs.
Qed.

Lemma dots_show_index_run (totalSlides : Z) (n : nat) (es : list event) :
  forall s, dots_show_index n s -> dots_show_index n (run totalSlides es s).
Proof.
  unfold run. induction es as [|e es IH]; intros s Hs; cbn [fold_left];
    [exact Hs|].
  apply IH, dots_show_index_step, Hs.
Qed.

Lemma dots_show_index_initial (n : nat) : dots_show_index n (initial true n).
Proof.
  unfold dots_show_index, initial. cbn [dots currentIndex].
  eexists. split; [reflexivity|]. split.
  - apply length_createDotsFrom.
  - apply createDotsFrom_toggleActive.
Qed.

(** X1: on a carousel of [n >= 1] slides with a dot host, after any
    sequence of clicks, keys and touches there are still [n] dots, dot [i]
    is active exactly when [i] is [currentIndex], and so exactly one dot is
    active. *)
Theorem dots_follow_currentIndex (n : nat) (es : list event) :
  (1 <= n)%nat ->
  exists ds,
    dots (run (Z.of_nat n) es (initial true n)) = Some ds /\
    List.length ds = n /\
    (forall i, (i < n)%nat ->
       nth i ds false =
         (Z.of_nat i =? currentIndex (run (Z.of_nat n) es (initial true n)))) /\
    count_occ bool_dec ds true = 1%nat.
Proof.
  intros Hn.
  destruct (dots_show_index_run (Z.of_nat n) n es _ (dots_show_index_initial n))
    as (ds & Hds & Hlen & Heq).
  assert (Hr : in_range (Z.of_nat n) (run (Z.of_nat n) es (initial true n))).
  { apply run_in_range; [lia|]. unfold in_range, initial. cbn. lia. }
  unfold in_range in Hr.
  exists ds. split; [exact Hds|]. split; [exact Hlen|]. split.
  - intros i Hi. rewrite Heq. rewrite nth_toggleActive by lia. reflexivity.
  - rewrite Heq, count_toggleActive, Hlen.
    destruct (Z.leb_spec 0 (currentIndex (run (Z.of_nat n) es (initial true n))));
      [|lia].
    destruct (Z.ltb_spec (currentIndex (run (Z.of_nat n) es (initial true n)))
                         (0 + Z.of_nat n)); [reflexivity|lia].
Qed.

Lemma dots_follow_currentIndex_witness :
  (1 <= 3)%nat /\
  exists ds,
    dots (run 3 [ClickPrev; TouchStart 200; TouchEnd 90] (initial true 3)) = Some ds /\
    List.length ds = 3%nat /\
    (forall i, (i < 3)%nat ->
       nth i ds false =
         (Z.of_nat i =?
            currentIndex (run 3 [ClickPrev; TouchStart 200; TouchEnd 90] (initial true 3)))) /\
    count_occ bool_dec ds true = 1%nat.
Proof.
  assert (H1 : (1 <= 3)%nat) by (repeat constructor).
  split; [exact H1|].
  exact (dots_follow_currentIndex 3 [ClickPrev; TouchStart 200; TouchEnd 90] H1).
Defined.

Lemma track_offset_step (totalSlides : Z) (e : event) (s : state) :
  (transform s = None /\ currentIndex s = 0) \/
  transform s = Some (- (currentIndex s * 100)) ->
  (transform (step totalSlides e s) = None /\
   currentIndex (step totalSlides e s) = 0) \/
  transform (step totalSlides e s) =
    Some (- (currentIndex (step totalSlides e s) * 100)).
Proof.
  intros Hs. destruct e as [ | | i | key | x | x]; cbn [step];
    try (right; apply transform_goToSlide).
  - destruct (String.eqb key "ArrowLeft"); [right; apply transform_goToSlide|].
    destruct (String.eqb key "ArrowRight"); [right; apply transform_goToSlide|].
    exact Hs.
  - exact Hs.
  - unfold handleSwipe. cbn [touchStartX touchEndX].
    destruct (Z.abs (touchStartX s - x) >? swipeThreshold); [|exact Hs].
    destruct (touchStartX s - x >? 0); right; apply transform_goToSlide.
Qed.

(** X2: whatever the events, the track is either still untouched, with the
    carousel on its first slide, or shifted left by 100% per slide up to
    the current one: [translateX(-(currentIndex * 100)%)]. *)
Theorem track_offset_follows_currentIndex
    (totalSlides : Z) (hasDots : bool) (n : nat) (es : list event) :
  (transform (run totalSlides es (initial hasDots n)) = None /\
   currentIndex (run totalSlides es (initial hasDots n)) = 0) \/
  transform (run totalSlides es (initial hasDots n)) =
    Some (- (currentIndex (run totalSlides es (initial hasDots n)) * 100)).
Proof.
  assert (H : forall s,
             (transform s = None /\ currentIndex s = 0) \/
             transform s = Some (- (currentIndex s * 100)) ->
             (transform (run totalSlides es s) = None /\
              currentIndex (run totalSlides es s) = 0) \/
             transform (run totalSlides es s) =
               Some (- (currentIndex (run totalSlides es s) * 100))).
  { unfold run. induction es as [|e es IH]; intros s Hs; cbn [fold_left];
      [exact Hs|].
    apply IH, track_offset_step, Hs. }
  apply H. left. split; reflexivity.
Qed.

(** X3: of two jumps in a row only the second counts: the index, the track
    offset and the dots after [goToSlide j] do not depend on a [goToSlide i]
    just before. In particular [goToSlide] is idempotent. *)
Theorem goToSlide_last_wins (totalSlides i j : Z) (s : state) :
  goToSlide totalSlides j (goToSlide totalSlides i s) = goToSlide totalSlides j s.
Proof.
  unfold goToSlide, updateDots. cbn [dots currentIndex transform touchStartX touchEndX].
  destruct (dots s) as [ds|]; cbn [dots currentIndex transform touchStartX touchEndX];
    [|reflexivity].
  rewrite toggleActive_toggleActive. reflexivity.
Qed.

Lemma iter_prevSlide (totalSlides : Z) (s : state) :
  1 <= totalSlides ->
  in_range totalSlides s ->
  forall n : nat,
    in_range totalSlides (Nat.iter n (prevSlide totalSlides) s) /\
    currentIndex (Nat.iter n (prevSlide totalSlides) s) =
      (currentIndex s - Z.of_nat n) mod totalSlides.
Proof.
  intros Htotal Hs n. induction n as [|n [IHr IHc]].
  - cbn [Nat.iter nat_rect]. split; [exact Hs|].
    change (Z.of_nat 0) with 0. rewrite Z.sub_0_r.
    symmetry. apply Z.mod_small.
    unfold in_range in Hs. lia.
  - change (Nat.iter (S n) (prevSlide totalSlides) s)
      with (prevSlide totalSlides (Nat.iter n (prevSlide totalSlides) s)).
    split.
    + apply goToSlide_in_range. exact Htotal.
    + rewrite currentIndex_prevSlide by exact IHr.
      rewrite IHc, Zminus_mod_idemp_l.
      f_equal. lia.
Qed.

(** X4: from any slide of a carousel, [prevSlide] called [totalSlides]
    times shows the slide it started from. *)
Theorem prevSlide_cycle (totalSlides : Z) (s : state) :
  1 <= totalSlides ->
  in_range totalSlides s ->
  currentIndex (Nat.iter (Z.to_nat totalSlides) (prevSlide totalSlides) s) =
    currentIndex s.
Proof.
  intros Htotal Hs.
  destruct (iter_prevSlide totalSlides s Htotal Hs (Z.to_nat totalSlides))
    as [_ ->].
  rewrite Z2Nat.id by lia.
  replace (currentIndex s - totalSlides)
    with (currentIndex s + (-1) * totalSlides) by lia.
  rewrite Z.mod_add by lia.
  apply Z.mod_small. unfold in_range in Hs. lia.
Qed.

Lemma prevSlide_cycle_witness :
  1 <= 4 /\ in_range 4 (goToSlide 4 1 (initial false 4)) /\
  currentIndex (Nat.iter (Z.to_nat 4) (prevSlide 4) (goToSlide 4 1 (initial false 4))) =
    currentIndex (goToSlide 4 1 (initial false 4)).
Proof.
  assert (H1 : 1 <= 4) by (vm_compute; discriminate).
  assert (H2 : in_range 4 (goToSlide 4 1 (initial false 4)))
    by (split; vm_compute; discriminate).
  split; [exact H1|]. split; [exact H2|].
  exact (prevSlide_cycle 4 (goToSlide 4 1 (initial false 4)) H1 H2).
Defined.

(** X5: a touch from [x0] to [x1] followed by the touch back from [x1] to
    [x0] shows the slide it started from, whether the two are swipes or
    stay within the threshold. *)
Theorem swipe_and_back (totalSlides x0 x1 : Z) (s : state) :
  1 <= totalSlides ->
  in_range totalSlides s ->
  currentIndex (swipe totalSlides x1 x0 (swipe totalSlides x0 x1 s)) =
    currentIndex s.
Proof.
  unfold in_range. intros Htotal Hs.
  unfold swipe. cbn [step currentIndex transform dots touchStartX touchEndX].
  destruct (Z.lt_trichotomy 50 (Z.abs (x0 - x1))) as [Hfar|Hnear].
  - destruct (Z.lt_ge_cases 0 (x0 - x1)) as [Hleft|Hright].
    + rewrite (handleSwipe_next totalSlides
                 (mkState (currentIndex s) (transform s) (dots s) x0 x1))
        by (unfold swipeThreshold; cbn [touchStartX touchEndX]; lia).
      rewrite handleSwipe_prev
        by (unfold swipeThreshold; cbn [touchStartX touchEndX]; lia).
      unfold nextSlide, prevSlide. cbn [currentIndex].
      rewrite !currentIndex_goToSlide.
      destruct (Z.ltb_spec (currentIndex s + 1) 0); [lia|].
      destruct (Z.geb_spec (currentIndex s + 1) totalSlides).
      * cbn. lia.
      * destruct (Z.ltb_spec (currentIndex s + 1 - 1) 0); [lia|].
        destruct (Z.geb_spec (currentIndex s + 1 - 1) totalSlides); lia.
    + rewrite (handleSwipe_prev totalSlides
                 (mkState (currentIndex s) (transform s) (dots s) x0 x1))
        by (unfold swipeThreshold; cbn [touchStartX touchEndX]; lia).
      rewrite handleSwipe_next
        by (unfold swipeThreshold; cbn [touchStartX touchEndX]; lia).
      unfold nextSlide, prevSlide. cbn [currentIndex].
      rewrite !currentIndex_goToSlide.
      destruct (Z.ltb_spec (currentIndex s - 1) 0).
      * destruct (Z.ltb_spec (totalSlides - 1 + 1) 0); [lia|].
        destruct (Z.geb_spec (totalSlides - 1 + 1) totalSlides); lia.
      * destruct (Z.geb_spec (currentIndex s - 1) totalSlides); [lia|].
        destruct (Z.ltb_spec (currentIndex s - 1 + 1) 0); [lia|].
        destruct (Z.geb_spec (currentIndex s - 1 + 1) totalSlides); lia.
  - rewrite (handleSwipe_noop totalSlides
               (mkState (currentIndex s) (transform s) (dots s) x0 x1))
      by (unfold swipeThreshold; cbn [touchStartX touchEndX]; lia).
    cbn [currentIndex transform dots].
    rewrite handleSwipe_noop
      by (unfold swipeThreshold; cbn [touchStartX touchEndX]; lia).
    reflexivity.
Qed.

Lemma swipe_and_back_witness :
  1 <= 5 /\ in_range 5 (goToSlide 5 4 (initial true 5)) /\
  currentIndex (swipe 5 30 120 (swipe 5 120 30 (goToSlide 5 4 (initial true 5)))) =
    currentIndex (goToSlide 5 4 (initial true 5)).
Proof.
  assert (H1 : 1 <= 5) by (vm_compute; discriminate).
  assert (H2 : in_range 5 (goToSlide 5 4 (initial true 5)))
    by (split; vm_compute; discriminate).
  split; [exact H1|]. split; [exact H2|].
  exact (swipe_and_back 5 120 30 (goToSlide 5 4 (initial true 5)) H1 H2).
Defined.

End CarouselView.

(** ** Pending callbacks of the accordion *)

Module AccordionCallbacks.

Import Accordion AccordionPending AccordionFacts.

Lemma registered_cons (id : nat) (r : registration) (ls : list registration) :
  registered id (r :: ls) = Nat.eqb (lid r) id || registered id ls.
Proof. reflexivity. Qed.

Lemma unregister_unregister (id : nat) (ls : list registration) :
  unregister id (unregister id ls) = unregister id ls.
Proof.
  unfold unregister. induction ls as [|r ls IH]; cbn [filter]; [reflexivity|].
  destruct (negb (Nat.eqb (lid r) id)) eqn:Hr; cbn [filter]; [|exact IH].
  rewrite Hr, IH. reflexivity.
Qed.

Lemma filter_filter {A : Type} (p q : A -> bool) (l : list A) :
  filter p (filter q l) = filter (fun x => q x && p x) l.
Proof.
  induction l as [|x l IH]; cbn [filter]; [reflexivity|].
  destruct (q x); cbn [filter andb]; [|exact IH].
  destruct (p x); rewrite IH; reflexivity.
Qed.

(** After delivery to [snapshot], the listeners left are those whose
    function is not in [snapshot]. *)
Lemma listeners_dispatch (snapshot : list registration) :
  forall s,
    listeners (dispatch snapshot s) =
      filter (fun r => negb (registered (lid r) snapshot)) (listeners s).
Proof.
  induction snapshot as [|r0 rest IH]; intros s; cbn [dispatch].
  - symmetry. apply forallb_filter_id. apply forallb_forall. reflexivity.
  - destruct (registered (lid r0) (listeners s)) eqn:Hreg.
    + rewrite IH, listeners_handler.
      assert (Hl : unregister (lid r0)
                     (listeners (if once r0
                                 then exec (RemoveTransitionEnd (lid r0)) s
                                 else s)) =
                   unregister (lid r0) (listeners s)).
      { destruct (once r0); cbn [exec listeners];
          [apply unregister_unregister|reflexivity]. }
      rewrite Hl. unfold unregister at 1. rewrite filter_filter.
      apply filter_ext. intros r. rewrite registered_cons.
      rewrite (Nat.eqb_sym (lid r0) (lid r)), negb_orb. reflexivity.
    + rewrite IH. apply filter_ext_in. intros r Hr.
      rewrite registered_cons.
      destruct (Nat.eqb_spec (lid r0) (lid r)) as [Heq|Hne]; [|reflexivity].
      exfalso. unfold registered in Hreg.
      assert (Hex : existsb (fun r' => Nat.eqb (lid r') (lid r0)) (listeners s) = true).
      { apply existsb_exists. exists r. split; [exact Hr|].
        apply Nat.eqb_eq. symmetry. exact Heq. }
      congruence.
Qed.

Lemma listeners_transitionEnd (s : item) :
  listeners (transitionEnd s) = [].
Proof.
  unfold transitionEnd. rewrite listeners_dispatch.
  destruct (filter (fun r => negb (registered (lid r) (listeners s))) (listeners s))
    as [|x l] eqn:Hf; [reflexivity|].
  assert (Hx : In x (filter (fun r => negb (registered (lid r) (listeners s)))
                            (listeners s)))
    by (rewrite Hf; left; reflexivity).
  apply filter_In in Hx. destruct Hx as [Hin Hnot].
  assert (Hreg : registered (lid x) (listeners s) = true).
  { unfold registered. apply existsb_exists. exists x.
    split; [exact Hin|apply Nat.eqb_refl]. }
  rewrite Hreg in Hnot. discriminate.
Qed.

(** X6: the delivery of a [transitionend] leaves no callback pending,
    whatever was registered: every registered function is dropped by the
    delivery, none stays for a later event. So a second [transitionend]
    right after the first changes nothing. *)
Theorem transitionEnd_leaves_no_listener (s : item) :
  listeners (transitionEnd s) = [] /\
  transitionEnd (transitionEnd s) = transitionEnd s.
Proof.
  split; [apply listeners_transitionEnd|].
  unfold transitionEnd at 1. rewrite listeners_transitionEnd. reflexivity.
Qed.

(** X7: a click and the [transitionend] that follows it, on an item with
    no callback pending, is a clean toggle: [open] flips, the height ends
    ["auto"] on an opened item and ["0"] on a closed one, and no callback is
    left; two such toggles restore [open]. *)
Theorem click_then_transitionend_toggles (s : item) (h1 h2 : Z) :
  listeners s = [] ->
  open (run [Click h1; TransitionEnd] s) = negb (open s) /\
  height (run [Click h1; TransitionEnd] s) = (if open s then Px 0 else Auto) /\
  listeners (run [Click h1; TransitionEnd] s) = [] /\
  open (run [Click h1; TransitionEnd; Click h2; TransitionEnd] s) = open s.
Proof.
  destruct s as [o h ls f r]. cbn [listeners]. intros ->.
  unfold run. cbn [fold_left step]. unfold click, click_ops, transitionEnd.
  destruct o; cbn; rewrite !Nat.eqb_refl; cbn; rewrite ?Nat.eqb_refl; cbn;
    repeat split; reflexivity.
Qed.

Lemma click_then_transitionend_toggles_witness :
  listeners (mkItem false (Px 0) [] 0 0) = [] /\
  run [Click 96; TransitionEnd] (mkItem false (Px 0) [] 0 0) =
    mkItem true Auto [] 1 2 /\
  open (run [Click 96; TransitionEnd; Click 96; TransitionEnd]
          (mkItem false (Px 0) [] 0 0)) = false.
Proof.
  split; [reflexivity|]. split; [reflexivity|].
  exact (proj2 (proj2 (proj2
           (click_then_transitionend_toggles (mkItem false (Px 0) [] 0 0) 96 96
              eq_refl)))).
Defined.

Lemma height_dispatch_closing (snapshot : list registration) :
  Forall closing snapshot ->
  forall s, height (dispatch snapshot s) = height s.
Proof.
  induction 1 as [|r rest Hr _ IH]; intros s; cbn [dispatch]; [reflexivity|].
  destruct (registered (lid r) (listeners s)); [|apply IH].
  rewrite IH, Hr. destruct (once r); reflexivity.
Qed.

Lemma open_dispatch_closed (snapshot : list registration) :
  Forall closing snapshot ->
  forall s, open s = false -> open (dispatch snapshot s) = false.
Proof.
  induction 1 as [|r rest Hr _ IH]; intros s Hs; cbn [dispatch]; [exact Hs|].
  destruct (registered (lid r) (listeners s)); [|apply IH; exact Hs].
  apply IH. rewrite Hr. reflexivity.
Qed.

(** Any number of clicks on an open item that only waits for collapses:
    it stays open, only waits for collapses, and after the first click its
    height is ["0"] and a callback is pending. *)
Lemma clicks_on_open (hs : list Z) :
  forall s,
    open s = true ->
    Forall closing (listeners s) ->
    open (run (map Click hs) s) = true /\
    Forall closing (listeners (run (map Click hs) s)) /\
    (hs <> [] ->
       height (run (map Click hs) s) = Px 0 /\
       listeners (run (map Click hs) s) <> []).
Proof.
  unfold run.
  induction hs as [|h hs IH]; intros s Hopen Hcl; cbn [map fold_left].
  - split; [exact Hopen|]. split; [exact Hcl|]. intros Hne. congruence.
  - assert (Hstep : step (Click h) s =
                      mkItem true (Px 0)
                        (listeners s ++ [mkRegistration (fresh s) closingHandler true])
                        (S (fresh s)) (S (S (reflows s)))).
    { cbn [step]. unfold click, click_ops. rewrite Hopen. cbn. rewrite Hopen.
      reflexivity. }
    destruct (IH (step (Click h) s)) as (Ho & Hc & Hh).
    + rewrite Hstep. reflexivity.
    + rewrite Hstep. cbn [listeners]. apply Forall_app. split; [exact Hcl|].
      constructor; [reflexivity|constructor].
    + split; [exact Ho|]. split; [exact Hc|]. intros _.
      destruct hs as [|h' hs'].
      * cbn [map fold_left]. rewrite Hstep. cbn [height listeners].
        split; [reflexivity|]. intros Hnil. apply app_eq_nil in Hnil.
        destruct Hnil as [_ Hnil]. discriminate.
      * apply Hh. discriminate.
Qed.

(** X8: clicks on an open item do not toggle it back and forth. However
    many clicks arrive before the [transitionend] (at least one), on an open
    item with no opening callback pending, the item ends closed with height
    ["0"] and nothing pending: an even number of clicks closes it as well. *)
Theorem clicks_on_open_item_close_it (hs : list Z) (s : item) :
  hs <> [] ->
  open s = true ->
  Forall closing (listeners s) ->
  open (run (map Click hs ++ [TransitionEnd]) s) = false /\
  height (run (map Click hs ++ [TransitionEnd]) s) = Px 0 /\
  listeners (run (map Click hs ++ [TransitionEnd]) s) = [].
Proof.
  intros Hne Hopen Hcl.
  destruct (clicks_on_open hs s Hopen Hcl) as (Ho & Hc & Hh).
  destruct (Hh Hne) as [Hheight Hpending].
  unfold run in *. rewrite fold_left_app. cbn [fold_left step].
  set (s1 := fold_left (fun acc e => step e acc) (map Click hs) s) in *.
  split; [|split].
  - unfold transitionEnd.
    destruct (listeners s1) as [|r rest] eqn:Hls; [congruence|].
    inversion Hc as [|r' rest' Hr Hrest]; subst.
    cbn [dispatch]. rewrite Hls. unfold registered at 1. cbn [existsb].
    rewrite Nat.eqb_refl. cbn [orb].
    apply open_dispatch_closed; [exact Hrest|].
    rewrite Hr. reflexivity.
  - unfold transitionEnd. rewrite height_dispatch_closing by exact Hc.
    exact Hheight.
  - apply listeners_transitionEnd.
Qed.

Lemma clicks_on_open_item_close_it_witness :
  [12; 12] <> [] /\
  open (mkItem true Auto [] 1 1) = true /\
  Forall closing (listeners (mkItem true Auto [] 1 1)) /\
  open (run (map Click [12; 12] ++ [TransitionEnd]) (mkItem true Auto [] 1 1)) = false /\
  height (run (map Click [12; 12] ++ [TransitionEnd]) (mkItem true Auto [] 1 1)) = Px 0.
Proof.
  assert (H1 : [12; 12] <> ([] : list Z)) by discriminate.
  assert (H2 : open (mkItem true Auto [] 1 1) = true) by reflexivity.
  assert (H3 : Forall closing (listeners (mkItem true Auto [] 1 1)))
    by (simpl; constructor).
  split; [exact H1|]. split; [exact H2|]. split; [exact H3|].
  split.
  - exact (proj1 (clicks_on_open_item_close_it [12; 12] _ H1 H2 H3)).
  - exact (proj1 (proj2 (clicks_on_open_item_close_it [12; 12] _ H1 H2 H3))).
Defined.

Lemma open_click (h : Z) (s : item) : open (click h s) = true.
Proof.
  unfold click, click_ops. destruct (open s) eqn:Hs; cbn; [exact Hs|reflexivity].
Qed.

(** X9: a closed item never has a callback pending. In every state an
    item reaches from start-up, [open] unset means that the list of
    [transitionend] listeners is empty: a collapse is only ever marked on
    delivery, and the delivery empties the list. *)
Theorem closed_item_has_nothing_pending
    (it : itemEl) (content : contentEl) (es : list event) :
  open (run es (started it content)) = false ->
  listeners (run es (started it content)) = [].
Proof.
  unfold run. induction es as [|e es _] using rev_ind.
  - intros _. cbn [fold_left]. unfold started, init_ops.
    destruct (el_open it); reflexivity.
  - rewrite fold_left_app. cbn [fold_left]. destruct e as [h|]; cbn [step].
    + rewrite open_click. discriminate.
    + intros _. apply listeners_transitionEnd.
Qed.

Lemma closed_item_has_nothing_pending_witness :
  open (run [Click 40; Click 40; TransitionEnd]
          (started (mkItemEl (Some (Dom.Node 0)) (Some (mkContentEl 40)) false)
                   (mkContentEl 40))) = false /\
  listeners (run [Click 40; Click 40; TransitionEnd]
               (started (mkItemEl (Some (Dom.Node 0)) (Some (mkContentEl 40)) false)
                        (mkContentEl 40))) = [].
Proof.
  assert (H : open (run [Click 40; Click 40; TransitionEnd]
                      (started (mkItemEl (Some (Dom.Node 0)) (Some (mkContentEl 40)) false)
                               (mkContentEl 40))) = false) by reflexivity.
  split; [exact H|].
  exact (closed_item_has_nothing_pending _ _ [Click 40; Click 40; TransitionEnd] H).
Defined.

End AccordionCallbacks.


(** ** Properties of the throttled scroll handler *)

Module ThrottleFacts.

Import Throttle.

Section Any.

Variables (A W : Type) (func : A -> W -> W).

Lemma calls_while_throttled (rest : list A) (c : closure) (w : W) :
  inThrottle c = true ->
  run A W func (map Call rest) (c, w) = (c, w).
Proof.
  intros Hc. unfold run.
  induction rest as [|a rest IH]; cbn [map fold_left]; [reflexivity|].
  cbn [step call]. rewrite Hc. exact IH.
Qed.

(** X10: of a burst of calls with no timer callback in between, a closure
    that is not throttled passes on the first call and drops all the
    others: [func] runs once, with the arguments of the first call, and one
    timer is scheduled. The dropped calls are not kept for later. *)
Theorem throttle_passes_first_call_only (a : A) (rest : list A) (c : closure) (w : W) :
  inThrottle c = false ->
  run A W func (map Call (a :: rest)) (c, w) =
    (mkClosure true (S (timers c)), func a w) /\
  run A W func (map Call (a :: rest) ++ [Timeout]) (c, w) =
    (mkClosure false (timers c), func a w).
Proof.
  intros Hc.
  assert (H1 : run A W func (map Call (a :: rest)) (c, w) =
               (mkClosure true (S (timers c)), func a w)).
  { unfold run. cbn [map fold_left step call]. rewrite Hc.
    apply (calls_while_throttled rest (mkClosure true (S (timers c))) (func a w)).
    reflexivity. }
  split; [exact H1|].
  unfold run in *. rewrite fold_left_app, H1. reflexivity.
Qed.

Lemma timers_step (e : event A) (cw : closure * W) :
  timers (fst cw) = (if inThrottle (fst cw) then 1 else 0)%nat ->
  timers (fst (step A W func e cw)) =
    (if inThrottle (fst (step A W func e cw)) then 1 else 0)%nat.
Proof.
  destruct cw as [[flag n] w]. cbn [fst inThrottle timers]. intros Hn.
  destruct e as [a|]; cbn [step call timeout inThrottle timers].
  - destruct flag; cbn [fst inThrottle timers]; [exact Hn|].
    rewrite Hn. reflexivity.
  - destruct n as [|k]; cbn [fst inThrottle timers]; [exact Hn|].
    destruct flag; [|discriminate]. injection Hn as ->. reflexivity.
Qed.

(** X11: a closure made by [throttle] has at most one timer scheduled at
    any time, and its flag is set exactly while that timer is pending; so
    the flag is always cleared again. *)
Theorem throttle_has_one_timer (es : list (event A)) (w : W) :
  timers (fst (run A W func es (created, w))) =
    (if inThrottle (fst (run A W func es (created, w))) then 1 else 0)%nat.
Proof.
  assert (H : forall cw,
             timers (fst cw) = (if inThrottle (fst cw) then 1 else 0)%nat ->
             timers (fst (run A W func es cw)) =
               (if inThrottle (fst (run A W func es cw)) then 1 else 0)%nat).
  { unfold run. induction es as [|e es IH]; intros cw Hcw; cbn [fold_left];
      [exact Hcw|].
    apply IH, timers_step, Hcw. }
  apply H. reflexivity.
Qed.

End Any.

(** Calls passed on so far, less the timer still pending, never exceed the
    timer callbacks seen. *)
Lemma record_run (A : Type) (es : list (event A)) :
  forall cw : closure * list A,
    (List.length (snd (run A (list A) record es cw)) +
       timers (fst cw) <=
     List.length (snd cw) +
       timers (fst (run A (list A) record es cw)) + timeouts es)%nat.
Proof.
  unfold run. induction es as [|e es IH]; intros [[flag n] log];
    cbn [fold_left timeouts fst snd timers]; [lia|].
  destruct e as [a|]; cbn [step call timeout inThrottle timers].
  - destruct flag.
    + specialize (IH (mkClosure true n, log)). cbn [fst snd timers] in IH. lia.
    + specialize (IH (mkClosure true (S n), record a log)).
      cbn [fst snd timers] in IH.
      assert (Hlen : List.length (record a log) = S (List.length log))
        by (unfold record; rewrite length_app; cbn [List.length]; lia).
      rewrite Hlen in IH. lia.
  - destruct n as [|k].
    + specialize (IH (mkClosure flag 0, log)). cbn [fst snd timers] in IH. lia.
    + specialize (IH (mkClosure false k, log)). cbn [fst snd timers] in IH. lia.
Qed.

(** X12: the throttled function runs at most once more than timer
    callbacks have run: with [n] timer callbacks among the events, [func]
    was called at most [n + 1] times, however many calls arrived. *)
Theorem throttle_bounds_calls (A : Type) (es : list (event A)) :
  (List.length (snd (run A (list A) record es (created, []))) <=
   S (timeouts es))%nat.
Proof.
  pose proof (record_run A es (created, [])) as H.
  pose proof (throttle_has_one_timer A (list A) record es []) as Ht.
  cbn [fst snd timers created List.length] in H.
  destruct (inThrottle (fst (run A (list A) record es (created, [])))); lia.
Qed.

Lemma throttle_passes_first_call_only_witness :
  inThrottle created = false /\
  run nat (list nat) record (map Call [1; 2; 3]%nat) (created, []) =
    (mkClosure true 1, [1%nat]) /\
  run nat (list nat) record (map Call [1; 2; 3]%nat ++ [Timeout]) (created, []) =
    (mkClosure false 0, [1%nat]).
Proof.
  split; [reflexivity|].
  exact (throttle_passes_first_call_only nat (list nat) record 1%nat [2; 3]%nat
           created [] eq_refl).
Defined.

End ThrottleFacts.

(** ** Properties of the header, the menus and the FAQ buttons *)

Module HeaderFacts.

Import Header.

Lemma handleHeaderScroll_logo (noHero : bool) (o : offsets) (v : view) :
  logo_matches (handleHeaderScroll (mkPage (Some (mkHeaderEl true)) noHero) o v).
Proof.
  unfold logo_matches, handleHeaderScroll, setLogo. cbn [header isNoHeroPage hasLogo].
  destruct noHero; [reflexivity|].
  destruct ((if scrollY o =? 0 then pageYOffset o else scrollY o) >? scrollThreshold);
    reflexivity.
Qed.

Lemma handleHeaderScroll_no_hero (h : headerEl) (o : offsets) (v : view) :
  scrolled (handleHeaderScroll (mkPage (Some h) true) o v) = true.
Proof. reflexivity. Qed.

Lemma run_keeps (P : view -> Prop) (p : page) :
  (forall o v, P (handleHeaderScroll p o v)) ->
  forall es cv, P (snd cv) -> P (snd (run p es cv)).
Proof.
  intros Hf. unfold run, Throttle.run.
  induction es as [|e es IH]; intros cv Hcv; cbn [fold_left]; [exact Hcv|].
  apply IH. destruct cv as [c v]. destruct e as [o|]; cbn [Throttle.step].
  - unfold Throttle.call. destruct (Throttle.inThrottle c); cbn [snd];
      [exact Hcv|apply Hf].
  - unfold Throttle.timeout. destruct (Throttle.timers c); exact Hcv.
Qed.

(** X13: on a page whose header has a logo, from the moment the script
    has run and through every scroll event and timer callback after it, the
    logo is the brown one exactly while the header has the class
    [scrolled], and the white one otherwise; throttling never leaves the
    two out of step. On a page without hero the header is [scrolled]
    throughout. *)
Theorem header_logo_follows_scrolled
    (noHero : bool) (o : offsets) (v : view) (es : list (Throttle.event offsets)) :
  logoSrc (snd (run (mkPage (Some (mkHeaderEl true)) noHero) es
                  (load (mkPage (Some (mkHeaderEl true)) noHero) o v))) =
    (if scrolled (snd (run (mkPage (Some (mkHeaderEl true)) noHero) es
                         (load (mkPage (Some (mkHeaderEl true)) noHero) o v)))
     then logoPathBrown else logoPathWhite) /\
  scrolled (snd (run (mkPage (Some (mkHeaderEl true)) true) es
                   (load (mkPage (Some (mkHeaderEl true)) true) o v))) = true.
Proof.
  split.
  - apply (run_keeps logo_matches).
    + intros o' v'. apply handleHeaderScroll_logo.
    + apply handleHeaderScroll_logo.
  - apply (run_keeps (fun v' => scrolled v' = true)).
    + intros o' v'. apply handleHeaderScroll_no_hero.
    + apply handleHeaderScroll_no_hero.
Qed.

End HeaderFacts.

Module MobileMenuFacts.

Import MobileMenu.

Lemma consistent_toggle (m : menu) : consistent (toggleMobileMenu all m).
Proof.
  unfold consistent, toggleMobileMenu. cbn.
  destruct (navOpen m); cbn; repeat split; reflexivity.
Qed.

Lemma consistent_close (m : menu) : consistent (closeMobileMenu all m).
Proof. unfold consistent, closeMobileMenu. cbn. repeat split; reflexivity. Qed.

Lemma consistent_step (e : event) (m : menu) :
  consistent m -> consistent (step all e m).
Proof.
  intros Hm. destruct e as [ | | isDropdownToggle innerWidth | | key]; cbn [step all mobileMenuToggle navOverlay mainNav].
  - apply consistent_toggle.
  - apply consistent_close.
  - destruct (negb isDropdownToggle || negb (innerWidth <=? 900));
      [apply consistent_close|exact Hm].
  - apply consistent_close.
  - destruct (String.eqb key "Escape" && (true && navOpen m));
      [apply consistent_close|exact Hm].
Qed.

Lemma consistent_run (es : list event) :
  forall m, consistent m -> consistent (run all es m).
Proof.
  unfold run. induction es as [|e es IH]; intros m Hm; cbn [fold_left];
    [exact Hm|].
  apply IH, consistent_step, Hm.
Qed.

(** X14: on a page with navigation, toggle and overlay, once the menu was
    toggled or closed for the first time, every later click or key leaves
    all indicators in agreement with the class [open] of the navigation:
    [aria-expanded], the overlay's [active] and [aria-hidden], and the
    scroll lock of the body. This holds whatever the markup said before. *)
Theorem menu_indicators_agree (m : menu) (es : list event) :
  consistent (run all es (toggleMobileMenu all m)) /\
  consistent (run all es (closeMobileMenu all m)).
Proof.
  split; apply consistent_run; [apply consistent_toggle|apply consistent_close].
Qed.

(** X15: when the indicators agree, toggling the menu twice gives back
    the very same page state; opening a closed menu and closing it (overlay,
    link or Escape) does too; and toggling an open menu is the same as
    closing it. *)
Theorem menu_toggle_round_trip (m : menu) :
  consistent m ->
  toggleMobileMenu all (toggleMobileMenu all m) = m /\
  (navOpen m = false -> closeMobileMenu all (toggleMobileMenu all m) = m) /\
  (navOpen m = true -> toggleMobileMenu all m = closeMobileMenu all m).
Proof.
  destruct m as [o a ov h b]. unfold consistent. cbn.
  intros (-> & -> & -> & ->).
  unfold toggleMobileMenu, closeMobileMenu. cbn.
  destruct o; cbn; repeat split; intros; try reflexivity; try discriminate.
Qed.

Lemma menu_toggle_round_trip_witness :
  consistent (mkMenu false (Some "false"%string) false (Some "true"%string) ""%string) /\
  toggleMobileMenu all
    (toggleMobileMenu all
       (mkMenu false (Some "false"%string) false (Some "true"%string) ""%string)) =
    mkMenu false (Some "false"%string) false (Some "true"%string) ""%string.
Proof.
  assert (H : consistent
                (mkMenu false (Some "false"%string) false (Some "true"%string) ""%string))
    by (repeat split; reflexivity).
  split; [exact H|].
  exact (proj1 (menu_toggle_round_trip _ H)).
Defined.

End MobileMenuFacts.

Module DropdownFacts.

Import Dropdown.

Lemma length_closeOthers (parent : nat) (ds : dropdowns) :
  forall j, List.length (closeOthers parent j ds) = List.length ds.
Proof.
  induction ds as [|d ds IH]; intros j; cbn [closeOthers List.length];
    [reflexivity|].
  rewrite IH. reflexivity.
Qed.

Lemma length_setOpen (force : bool) (ds : dropdowns) :
  forall parent, List.length (setOpen parent force ds) = List.length ds.
Proof.
  induction ds as [|d ds IH]; intros [|k]; cbn [setOpen List.length];
    try reflexivity.
  rewrite IH. reflexivity.
Qed.

Lemma nth_closeOthers (parent : nat) (ds : dropdowns) :
  forall j i,
    nth i (closeOthers parent j ds) false =
      nth i ds false && Nat.eqb (j + i) parent.
Proof.
  induction ds as [|d ds IH]; intros j i; cbn [closeOthers].
  - destruct i; reflexivity.
  - destruct i as [|i]; cbn [nth].
    + rewrite Nat.add_0_r. destruct d, (Nat.eqb j parent); reflexivity.
    + rewrite IH. replace (S j + i)%nat with (j + S i)%nat by lia. reflexivity.
Qed.

Lemma nth_setOpen (force : bool) (ds : dropdowns) :
  forall parent i,
    (parent < List.length ds)%nat ->
    nth i (setOpen parent force ds) false =
      if Nat.eqb i parent then force else nth i ds false.
Proof.
  induction ds as [|d ds IH]; intros parent i Hp; cbn [List.length] in Hp; [lia|].
  destruct parent as [|k]; cbn [setOpen].
  - destruct i; reflexivity.
  - destruct i as [|i]; cbn [nth Nat.eqb]; [reflexivity|].
    apply IH. lia.
Qed.

Lemma count_single (k : nat) (b : bool) (n : nat) :
  forall a,
    (count_occ bool_dec (map (fun j => Nat.eqb j k && b) (seq a n)) true <= 1)%nat /\
    ((k < a)%nat ->
     count_occ bool_dec (map (fun j => Nat.eqb j k && b) (seq a n)) true = 0%nat).
Proof.
  induction n as [|n IH]; intros a; cbn [seq map count_occ]; [split; lia|].
  destruct (IH (S a)) as [Hle Hzero].
  destruct (Nat.eqb_spec a k) as [Heq|Hne]; cbn [andb].
  - destruct b.
    + destruct (bool_dec true true) as [_|Hn]; [|congruence].
      rewrite Hzero by lia. split; lia.
    + destruct (bool_dec false true) as [Hn|_]; [discriminate|].
      split; [exact Hle|]. intros Hk. lia.
  - destruct (bool_dec false true) as [Hn|_]; [discriminate|].
    split; [exact Hle|]. intros Hk. apply Hzero. lia.
Qed.

Lemma nth_map_seq (f : nat -> bool) (n i : nat) :
  (i < n)%nat -> nth i (map f (seq 0 n)) false = f i.
Proof.
  intros Hi.
  rewrite (nth_indep _ false (f O)) by (rewrite length_map, length_seq; exact Hi).
  rewrite map_nth, seq_nth by exact Hi. reflexivity.
Qed.

(** The dropdowns after a click on toggle [parent] on a narrow window. *)
Lemma clickToggle_mobile (parent : nat) (innerWidth : Z) (ds : dropdowns) :
  innerWidth <= 900 ->
  (parent < List.length ds)%nat ->
  clickToggle parent innerWidth ds =
    map (fun j => Nat.eqb j parent && negb (nth parent ds false))
        (seq 0 (List.length ds)).
Proof.
  intros Hw Hp. unfold clickToggle.
  destruct (Z.leb_spec innerWidth 900); [|lia].
  apply nth_ext with (d := false) (d' := false).
  - rewrite length_setOpen, length_closeOthers, length_map, length_seq.
    reflexivity.
  - intros i Hi. rewrite length_setOpen, length_closeOthers in Hi.
    rewrite nth_setOpen by (rewrite length_closeOthers; exact Hp).
    rewrite nth_closeOthers, nth_map_seq by exact Hi. cbn [Nat.add].
    destruct (Nat.eqb i parent); cbn [andb]; [reflexivity|].
    apply andb_false_r.
Qed.

(** X16: on a window at most 900 px wide, a click on the toggle of
    dropdown [parent] leaves at most one dropdown open: every other one is
    closed, and [parent] is open exactly when it was closed before. The
    number of dropdowns does not change. *)
Theorem dropdown_click_leaves_one_open (parent : nat) (innerWidth : Z) (ds : dropdowns) :
  innerWidth <= 900 ->
  (parent < List.length ds)%nat ->
  List.length (clickToggle parent innerWidth ds) = List.length ds /\
  (forall j, (j < List.length ds)%nat ->
     nth j (clickToggle parent innerWidth ds) false =
       Nat.eqb j parent && negb (nth parent ds false)) /\
  (count_occ bool_dec (clickToggle parent innerWidth ds) true <= 1)%nat.
Proof.
  intros Hw Hp. rewrite (clickToggle_mobile parent innerWidth ds Hw Hp).
  split; [rewrite length_map, length_seq; reflexivity|]. split.
  - intros j Hj. apply nth_map_seq. exact Hj.
  - apply count_single.
Qed.

Lemma dropdown_click_leaves_one_open_witness :
  700 <= 900 /\ (2 < List.length [true; true; false; true])%nat /\
  clickToggle 2 700 [true; true; false; true] = [false; false; true; false] /\
  (count_occ bool_dec (clickToggle 2 700 [true; true; false; true]) true <= 1)%nat.
Proof.
  assert (H1 : 700 <= 900) by (vm_compute; discriminate).
  assert (H2 : (2 < List.length [true; true; false; true])%nat)
    by (repeat constructor).
  split; [exact H1|]. split; [exact H2|]. split; [reflexivity|].
  exact (proj2 (proj2
           (dropdown_click_leaves_one_open 2 700 [true; true; false; true] H1 H2))).
Defined.

End DropdownFacts.

Module FaqButtonFacts.

Import FaqButton.

Lemma isTrue_to_string (b : bool) : isTrue (Some (MobileMenu.to_string b)) = b.
Proof. destruct b; reflexivity. Qed.

(** X17: after any number of clicks on a FAQ button, the class [active]
    has flipped once per click, and [aria-expanded] says "expanded" exactly
    as often in step with [active] as the markup did: a button whose markup
    has the two in agreement keeps them in agreement, and one whose markup
    has them at odds (say [active] without [aria-expanded]) never gets them
    to agree. *)
Theorem faq_button_keeps_its_step (n : nat) (s : faq) :
  active (Nat.iter n click s) = xorb (Nat.odd n) (active s) /\
  Bool.eqb (isTrue (ariaExpanded (Nat.iter n click s))) (active (Nat.iter n click s)) =
    Bool.eqb (isTrue (ariaExpanded s)) (active s).
Proof.
  induction n as [|n [IHa IHs]].
  - change (Nat.iter 0 click s) with s.
    split; [destruct (active s); reflexivity|reflexivity].
  - change (Nat.iter (S n) click s) with (click (Nat.iter n click s)).
    remember (Nat.iter n click s) as x eqn:Hx.
    unfold click. cbn [active ariaExpanded].
    rewrite isTrue_to_string. split.
    + rewrite IHa, Nat.odd_succ, <- Nat.negb_odd.
      destruct (Nat.odd n), (active s); reflexivity.
    + rewrite <- IHs.
      destruct (isTrue (ariaExpanded x)), (active x); reflexivity.
Qed.

End FaqButtonFacts.

(** ** Properties of the form validation *)

Module RegexFacts.

Import Text Regex.

Lemma nullable_denotes (r : regex) : nullable r = true <-> denotes r [].
Proof.
  induction r as [ | | p | r1 IH1 r2 IH2 | r1 IH1 r2 IH2 | r IH]; cbn [nullable].
  - split; [discriminate|]. intros H. inversion H.
  - split; [intros _; constructor|reflexivity].
  - split; [discriminate|]. intros H. inversion H.
  - rewrite orb_true_iff, IH1, IH2. split.
    + intros [H|H]; [apply DAltL|apply DAltR]; exact H.
    + intros H. inversion H; subst; [left|right]; assumption.
  - rewrite andb_true_iff, IH1, IH2. split.
    + intros [H1 H2]. apply (DSeq r1 r2 [] [] H1 H2).
    + intros H. inversion H as [ | | | | ? ? s1 s2 H1 H2 Hr Hs | | ]; subst.
      apply app_eq_nil in Hs. destruct Hs as [-> ->]. split; assumption.
  - split; [intros _; constructor|reflexivity].
Qed.

(** A non-empty string of [r*] starts with a non-empty string of [r]. *)
Lemma star_cons (r : regex) (c : char) (s : str) :
  denotes (Star r) (c :: s) ->
  exists s1 s2, s = s1 ++ s2 /\ denotes r (c :: s1) /\ denotes (Star r) s2.
Proof.
  intros H. remember (Star r) as r' eqn:Hr. remember (c :: s) as s' eqn:Hs.
  induction H as [ | | | | | r0 | r0 s1 s2 H1 _ H2 IH2]; try discriminate.
  injection Hr as ->.
  destruct s1 as [|c1 s1].
  - cbn [app] in Hs. apply IH2; [reflexivity|exact Hs].
  - cbn [app] in Hs. injection Hs as -> <-.
    exists s1, s2. repeat split; assumption.
Qed.

Lemma deriv_denotes (r : regex) :
  forall c s, denotes (deriv c r) s <-> denotes r (c :: s).
Proof.
  induction r as [ | | p | r1 IH1 r2 IH2 | r1 IH1 r2 IH2 | r IH];
    intros c s; cbn [deriv].
  - split; intros H; inversion H.
  - split; intros H; inversion H.
  - destruct (p c) eqn:Hp; split; intros H.
    + inversion H; subst. constructor. exact Hp.
    + inversion H; subst. constructor.
    + inversion H.
    + inversion H; subst. congruence.
  - split; intros H.
    + inversion H; subst; [apply DAltL, IH1|apply DAltR, IH2]; assumption.
    + inversion H; subst; [apply DAltL, IH1|apply DAltR, IH2]; assumption.
  - assert (Hfwd : forall t, denotes (Seq (deriv c r1) r2) t ->
                             denotes (Seq r1 r2) (c :: t)).
    { intros t H. inversion H as [ | | | | ? ? s1 s2 H1 H2 Hr Hs | | ]; subst.
      apply IH1 in H1. apply (DSeq r1 r2 (c :: s1) s2 H1 H2). }
    assert (Hbwd : forall t, denotes (Seq r1 r2) (c :: t) ->
                             denotes (Seq (deriv c r1) r2) t \/
                             (denotes r1 [] /\ denotes r2 (c :: t))).
    { intros t H. inversion H as [ | | | | ? ? s1 s2 H1 H2 Hr Hs | | ]; subst.
      destruct s1 as [|c1 s1]; cbn [app] in Hs.
      - right. subst s2. split; assumption.
      - injection Hs as -> <-. left. constructor; [apply IH1|]; assumption. }
    destruct (nullable r1) eqn:Hn; split; intros H.
    + inversion H; subst; [apply Hfwd; assumption|].
      apply nullable_denotes in Hn.
      match goal with Hd : denotes (deriv c r2) s |- _ => apply IH2 in Hd;
        apply (DSeq r1 r2 [] (c :: s) Hn Hd) end.
    + destruct (Hbwd s H) as [Hl|[_ Hr]]; [apply DAltL; exact Hl|].
      apply DAltR, IH2. exact Hr.
    + apply Hfwd. exact H.
    + destruct (Hbwd s H) as [Hl|[Hr _]]; [exact Hl|].
      apply nullable_denotes in Hr. congruence.
  - split; intros H.
    + inversion H as [ | | | | ? ? s1 s2 H1 H2 Hr Hs | | ]; subst.
      apply IH in H1. apply (DStarApp r (c :: s1) s2 H1 H2).
    + destruct (star_cons r c s H) as (s1 & s2 & -> & H1 & H2).
      constructor; [apply IH|]; assumption.
Qed.

(** The test accepts exactly the strings of the regular expression. *)
Lemma matches_denotes (s : str) :
  forall r, matches r s = true <-> denotes r s.
Proof.
  induction s as [|c s IH]; intros r; cbn [matches].
  - apply nullable_denotes.
  - rewrite IH. apply deriv_denotes.
Qed.

Lemma denotes_star_class (p : char -> bool) (s : str) :
  denotes (Star (Class p)) s <-> forallb p s = true.
Proof.
  split.
  - intros H. remember (Star (Class p)) as r eqn:Hr.
    induction H as [ | | | | | r0 | r0 s1 s2 H1 _ H2 IH2]; try discriminate.
    + reflexivity.
    + injection Hr as ->. inversion H1; subst. cbn [app forallb].
      apply andb_true_iff. split; [assumption|apply IH2; reflexivity].
  - induction s as [|c s IH]; cbn [forallb]; intros H; [constructor|].
    apply andb_true_iff in H. destruct H as [Hc Hs].
    apply (DStarApp (Class p) [c] s); [constructor; exact Hc|apply IH, Hs].
Qed.

Lemma denotes_plus_class (p : char -> bool) (s : str) :
  denotes (Plus (Class p)) s <-> s <> [] /\ forallb p s = true.
Proof.
  unfold Plus. split.
  - intros H. inversion H as [ | | | | ? ? s1 s2 H1 H2 Hr Hs | | ]; subst.
    inversion H1; subst. cbn [app forallb]. split; [discriminate|].
    apply andb_true_iff. split; [assumption|apply denotes_star_class, H2].
  - intros [Hne Hall]. destruct s as [|c s]; [congruence|].
    cbn [forallb] in Hall. apply andb_true_iff in Hall. destruct Hall as [Hc Hs].
    apply (DSeq (Class p) (Star (Class p)) [c] s);
      [constructor; exact Hc|apply denotes_star_class, Hs].
Qed.

Lemma denotes_class_eq (c : char) (s : str) :
  denotes (Class (N.eqb c)) s <-> s = [c].
Proof.
  split.
  - intros H. inversion H; subst. f_equal. symmetry. apply N.eqb_eq. assumption.
  - intros ->. constructor. apply N.eqb_refl.
Qed.

End RegexFacts.

Module FormsFacts.

Import Text Regex Forms RegexFacts.

Lemma denotes_seq (r1 r2 : regex) (s : str) :
  denotes (Seq r1 r2) s <->
  exists s1 s2, s = s1 ++ s2 /\ denotes r1 s1 /\ denotes r2 s2.
Proof.
  split.
  - intros H. inversion H as [ | | | | ? ? s1 s2 H1 H2 Hr Hs | | ]; subst.
    exists s1, s2. repeat split; assumption.
  - intros (s1 & s2 & -> & H1 & H2). constructor; assumption.
Qed.

Example isValidEmail_samples :
  map isValidEmail
    [ [97; 64; 98; 46; 99];           (* a@b.c *)
      [97; 64; 98];                   (* a@b *)
      [97; 64; 46; 99];               (* a@.c *)
      [97; 64; 98; 46];               (* a@b. *)
      [97; 64; 98; 46; 46; 99];       (* a@b..c *)
      [97; 64; 64; 98; 46; 99];       (* a@@b.c *)
      [97; 64; 98; 46; 99; 32];       (* a@b.c followed by a space *)
      [] ]%N =
    [true; false; false; false; true; false; false; false].
Proof. reflexivity. Qed.

(** X18: [isValidEmail] accepts exactly the strings of the form
    [local@domain.tail] where the three parts are non-empty and contain
    neither white space nor ["@"]; the domain and the tail may contain
    further full stops. *)
Theorem isValidEmail_shape (s : str) :
  isValidEmail s = true <->
  exists a b c,
    s = a ++ at_sign :: b ++ full_stop :: c /\
    a <> [] /\ b <> [] /\ c <> [] /\
    forallb plain a = true /\ forallb plain b = true /\ forallb plain c = true.
Proof.
  unfold isValidEmail, emailPattern. rewrite matches_denotes. split.
  - intros H.
    apply denotes_seq in H. destruct H as (a & s1 & -> & Ha & H).
    apply denotes_seq in H. destruct H as (x & s2 & -> & Hx & H).
    apply denotes_seq in H. destruct H as (b & s3 & -> & Hb & H).
    apply denotes_seq in H. destruct H as (y & c & -> & Hy & Hc).
    apply denotes_class_eq in Hx, Hy. subst x y.
    apply denotes_plus_class in Ha, Hb, Hc.
    exists a, b, c. cbn [app]. repeat split; tauto.
  - intros (a & b & c & -> & Ha & Hb & Hc & Fa & Fb & Fc).
    apply denotes_seq. exists a, (at_sign :: b ++ full_stop :: c).
    split; [reflexivity|]. split; [apply denotes_plus_class; tauto|].
    apply denotes_seq. exists [at_sign], (b ++ full_stop :: c).
    split; [reflexivity|]. split; [apply denotes_class_eq; reflexivity|].
    apply denotes_seq. exists b, (full_stop :: c).
    split; [reflexivity|]. split; [apply denotes_plus_class; tauto|].
    apply denotes_seq. exists [full_stop], c.
    split; [reflexivity|]. split; [apply denotes_class_eq; reflexivity|].
    apply denotes_plus_class; tauto.
Qed.

Lemma plain_parts (a : str) :
  forallb plain a = true ->
  forallb not_space a = true /\ count_occ N.eq_dec a at_sign = 0%nat.
Proof.
  induction a as [|c a IH]; cbn [forallb count_occ]; intros H; [split; reflexivity|].
  apply andb_true_iff in H. destruct H as [Hc Ha].
  destruct (IH Ha) as [Hs Hn].
  unfold plain in Hc. apply negb_true_iff, orb_false_iff in Hc.
  destruct Hc as [Hsp Hat]. split.
  - unfold not_space at 1. rewrite Hsp, Hs. reflexivity.
  - destruct (N.eq_dec c at_sign) as [Heq|_]; [|exact Hn].
    apply N.eqb_neq in Hat. congruence.
Qed.

Lemma trimStart_not_space (s : str) :
  forallb not_space s = true -> trimStart s = s.
Proof.
  destruct s as [|c s]; cbn [forallb trimStart]; [reflexivity|].
  intros H. apply andb_true_iff in H. destruct H as [Hc _].
  unfold not_space in Hc. apply negb_true_iff in Hc. rewrite Hc. reflexivity.
Qed.

Lemma trim_not_space (s : str) :
  forallb not_space s = true -> trim s = s.
Proof.
  intros H. unfold trim, trimEnd. rewrite (trimStart_not_space s H).
  rewrite trimStart_not_space; [apply rev_involutive|].
  apply forallb_forall. intros c Hc. apply in_rev in Hc.
  revert c Hc. apply forallb_forall. exact H.
Qed.

(** What an accepted address looks like, for the handlers below. *)
Lemma isValidEmail_plain (s : str) :
  isValidEmail s = true ->
  count_occ N.eq_dec s at_sign = 1%nat /\
  forallb not_space s = true /\
  s <> [].
Proof.
  intros H. apply isValidEmail_shape in H.
  destruct H as (a & b & c & -> & Ha & Hb & Hc & Fa & Fb & Fc).
  destruct (plain_parts a Fa) as [Sa Na].
  destruct (plain_parts b Fb) as [Sb Nb].
  destruct (plain_parts c Fc) as [Sc Nc].
  unfold str, char in *.
  split; [|split].
  - rewrite count_occ_app, Na. cbn [count_occ].
    destruct (N.eq_dec at_sign at_sign) as [_|Hn]; [|congruence].
    rewrite count_occ_app, Nb. cbn [count_occ].
    destruct (N.eq_dec full_stop at_sign) as [Heq|_]; [discriminate|].
    rewrite Nc. reflexivity.
  - rewrite forallb_app, Sa. cbn [forallb andb].
    rewrite forallb_app, Sb. cbn [forallb]. rewrite Sc. reflexivity.
  - destruct a; [congruence|discriminate].
Qed.

(** X19: an address [isValidEmail] accepts has exactly one ["@"] and no
    white space anywhere, so it is not empty and [trim] leaves it as it is:
    an address typed with a space before or after it is refused, although
    the handlers would trim it before sending. *)
Theorem isValidEmail_one_at_no_space (s : str) :
  isValidEmail s = true ->
  count_occ N.eq_dec s at_sign = 1%nat /\
  forallb (fun c => negb (is_space c)) s = true /\
  trim s = s /\
  is_empty (trim s) = false.
Proof.
  intros H. destruct (isValidEmail_plain s H) as (Hat & Hsp & Hne).
  assert (Ht : trim s = s) by (apply trim_not_space; exact Hsp).
  split; [exact Hat|]. split; [exact Hsp|]. split; [exact Ht|].
  rewrite Ht. destruct s; [congruence|reflexivity].
Qed.

Lemma isValidEmail_one_at_no_space_witness :
  isValidEmail [97; 64; 98; 46; 99]%N = true /\
  count_occ N.eq_dec [97; 64; 98; 46; 99]%N at_sign = 1%nat /\
  trim [97; 64; 98; 46; 99]%N = [97; 64; 98; 46; 99]%N.
Proof.
  assert (H : isValidEmail [97; 64; 98; 46; 99]%N = true) by reflexivity.
  split; [exact H|]. split.
  - exact (proj1 (isValidEmail_one_at_no_space _ H)).
  - exact (proj1 (proj2 (proj2 (isValidEmail_one_at_no_space _ H)))).
Defined.

Lemma errors_showError (message : string) (input : field) :
  (List.length (errors input) <= 1)%nat ->
  errors (showError message input) = [message].
Proof.
  unfold showError. cbn [errors].
  destruct (errors input) as [|e [|e' rest]]; cbn [List.length]; intros H;
    try reflexivity; lia.
Qed.

Lemma errors_clearError (input : field) :
  (List.length (errors input) <= 1)%nat ->
  errors (clearError input) = [].
Proof.
  unfold clearError. cbn [errors].
  destruct (errors input) as [|e [|e' rest]]; cbn [List.length tl]; intros H;
    try reflexivity; lia.
Qed.

(** X20: one submit of the insurance form, on inputs whose groups hold at
    most one error message each, checks all three inputs: afterwards each
    group holds its message exactly when its input fails its test (blank
    phone; blank or malformed address; no provider chosen) and holds
    nothing otherwise, whatever it held before. A request is sent exactly
    when no group holds a message. *)
Theorem insurance_errors_match_inputs (f : insuranceForm) :
  (List.length (errors (phone f)) <= 1)%nat ->
  (List.length (errors (email f)) <= 1)%nat ->
  (List.length (errors (provider f)) <= 1)%nat ->
  errors (phone (fst (submitInsurance f))) =
    (if is_empty (trim (value (phone f))) then [phoneMessage] else []) /\
  errors (email (fst (submitInsurance f))) =
    (if is_empty (trim (value (email f))) || negb (isValidEmail (value (email f)))
     then [emailMessage] else []) /\
  errors (provider (fst (submitInsurance f))) =
    (if is_empty (value (provider f)) then [providerMessage] else []) /\
  is_some (snd (submitInsurance f)) =
    no_error (phone (fst (submitInsurance f))) &&
    no_error (email (fst (submitInsurance f))) &&
    no_error (provider (fst (submitInsurance f))).
Proof.
  intros Hp He Hv. unfold submitInsurance, no_error.
  destruct (is_empty (trim (value (phone f))));
    destruct (is_empty (trim (value (email f))) || negb (isValidEmail (value (email f))));
    destruct (is_empty (value (provider f)));
    cbn [fst snd phone email provider is_some];
    rewrite ?errors_showError, ?errors_clearError by assumption;
    repeat split; reflexivity.
Qed.

Lemma insurance_errors_match_inputs_witness :
  (List.length (errors (mkField [32]%N ["old"%string] ""%string)) <= 1)%nat /\
  errors (phone (fst (submitInsurance
     (mkInsuranceForm (mkField [32]%N ["old"%string] ""%string)
                      (mkField [97; 64; 98; 46; 99]%N [emailMessage] "#c00"%string)
                      (mkField [120]%N [] ""%string))))) = [phoneMessage] /\
  errors (email (fst (submitInsurance
     (mkInsuranceForm (mkField [32]%N ["old"%string] ""%string)
                      (mkField [97; 64; 98; 46; 99]%N [emailMessage] "#c00"%string)
                      (mkField [120]%N [] ""%string))))) = [].
Proof.
  assert (H1 : (List.length (errors (mkField [32]%N ["old"%string] ""%string)) <= 1)%nat)
    by (simpl; constructor).
  assert (H2 : (List.length (errors (mkField [97; 64; 98; 46; 99]%N [emailMessage]
                                             "#c00"%string)) <= 1)%nat)
    by (simpl; constructor).
  assert (H3 : (List.length (errors (mkField [120]%N [] ""%string)) <= 1)%nat)
    by (simpl; repeat constructor).
  split; [exact H1|]. split.
  - exact (proj1 (insurance_errors_match_inputs
                    (mkInsuranceForm (mkField [32]%N ["old"%string] ""%string)
                       (mkField [97; 64; 98; 46; 99]%N [emailMessage] "#c00"%string)
                       (mkField [120]%N [] ""%string)) H1 H2 H3)).
  - exact (proj1 (proj2 (insurance_errors_match_inputs
                    (mkInsuranceForm (mkField [32]%N ["old"%string] ""%string)
                       (mkField [97; 64; 98; 46; 99]%N [emailMessage] "#c00"%string)
                       (mkField [120]%N [] ""%string)) H1 H2 H3))).
Defined.

(** X21: whatever the insurance handler sends has passed the tests: the
    phone number is the trimmed input and is not empty, the address is the
    input as typed and [isValidEmail] accepts it, and a provider is
    chosen. *)
Theorem insurance_request_is_validated
    (f f' : insuranceForm) (req : insuranceRequest) :
  submitInsurance f = (f', Some req) ->
  req_phone req = trim (value (phone f)) /\
  req_phone req <> [] /\
  req_email req = value (email f) /\
  isValidEmail (req_email req) = true /\
  req_provider req = value (provider f) /\
  req_provider req <> [].
Proof.
  unfold submitInsurance.
  destruct (is_empty (trim (value (phone f)))) eqn:Hp;
    destruct (is_empty (trim (value (email f))) || negb (isValidEmail (value (email f))))
      eqn:He;
    destruct (is_empty (value (provider f))) eqn:Hv;
    intros H; injection H as _ H; try discriminate.
  subst req. cbn [req_phone req_email req_provider].
  apply orb_false_iff in He. destruct He as [_ He].
  apply negb_false_iff in He.
  destruct (isValidEmail_plain _ He) as (_ & Hsp & _).
  rewrite (trim_not_space _ Hsp).
  repeat split; try assumption.
  - destruct (trim (value (phone f))); [discriminate|discriminate].
  - destruct (value (provider f)); [discriminate|discriminate].
Qed.

Lemma insurance_request_is_validated_witness :
  submitInsurance
    (mkInsuranceForm (mkField [32; 53; 53; 53; 32]%N [] ""%string)
                     (mkField [97; 64; 98; 46; 99]%N [] ""%string)
                     (mkField [120]%N [] ""%string)) =
    (mkInsuranceForm (mkField [32; 53; 53; 53; 32]%N [] ""%string)
                     (mkField [97; 64; 98; 46; 99]%N [] ""%string)
                     (mkField [120]%N [] ""%string),
     Some (mkInsuranceRequest [53; 53; 53]%N [97; 64; 98; 46; 99]%N [120]%N)) /\
  isValidEmail [97; 64; 98; 46; 99]%N = true.
Proof.
  assert (H : submitInsurance
                (mkInsuranceForm (mkField [32; 53; 53; 53; 32]%N [] ""%string)
                                 (mkField [97; 64; 98; 46; 99]%N [] ""%string)
                                 (mkField [120]%N [] ""%string)) =
              (mkInsuranceForm (mkField [32; 53; 53; 53; 32]%N [] ""%string)
                               (mkField [97; 64; 98; 46; 99]%N [] ""%string)
                               (mkField [120]%N [] ""%string),
               Some (mkInsuranceRequest [53; 53; 53]%N [97; 64; 98; 46; 99]%N [120]%N)))
    by reflexivity.
  split; [exact H|].
  exact (proj1 (proj2 (proj2 (proj2 (insurance_request_is_validated _ _ _ H))))).
Defined.

End FormsFacts.
